(** * PARSER-WB1: the synchronisation and normalisation core, in Rocq

    A shallow embedding of the JavaScript sources
      - [api/_lib/wb.js]       (catalog cards, reviews, questions),
      - [api/_lib/storage.js]  (key/value store with in-process fallback),
      - [api/_lib/csv.js]      (flattening CSV serialiser),
      - [api/_lib/telegram.js] (initData verification),
      - [api/products.js], [api/questions.js], [api/wb/token.js]
                               (the request handlers built on them),
    followed by the properties established about them.

    Data model.  JSON data is a [value]; an object is the list of its own
    properties in enumeration order and is used as a map from field names
    to values (own-property lookup; field names that coincide with members
    of [Object.prototype] are outside the model).  Numbers are the integral
    doubles plus NaN and the two infinities; strings are byte strings
    (UTF-8), compared byte by byte.  Functions
    of the JavaScript runtime that the sources call but do not define
    (Date.parse, string-to-number conversion, ICU collation, trim,
    encodeURIComponent, JSON.stringify/parse, URLSearchParams) are fields
    of the record [Host]; code that can throw returns a [result]. *)

From Stdlib Require Import ZArith String Ascii Lia Permutation.
From stdpp Require Import gmap strings list pretty sorting.

Local Open Scope Z_scope.
#[local] Set Warnings "-register-all".

(* ================================================================== *)
(** ** Values of the language                                          *)
(* ================================================================== *)

Inductive number : Type :=
| Fin (z : Z)
| NaN
| PosInf
| NegInf.

Inductive value : Type :=
| VUndef
| VNull
| VBool (b : bool)
| VNum (n : number)
| VStr (s : string)
| VArr (items : list value)
| VObj (props : list (string * value)).

(** Own properties of an object, in enumeration order. *)
Abbreviation object := (list (string * value)).

#[global] Instance number_eq_dec : EqDecision number.
Proof. solve_decision. Defined.

(** Code that can throw: [Throw e] is an exception carrying [e]. *)
Inductive result (A : Type) : Type :=
| Ok (a : A)
| Throw (e : string).
Arguments Ok {A} a.
Arguments Throw {A} e.

#[global] Instance result_ret : MRet result := fun A a => Ok a.
#[global] Instance result_bind : MBind result := fun A B f m =>
  match m with
  | Ok a => f a
  | Throw e => Throw e
  end.

#[global] Instance result_fmap : FMap result := fun A B f m =>
  match m with
  | Ok a => Ok (f a)
  | Throw e => Throw e
  end.

(** [try { m } catch (err) { h }]. *)
Definition try_catch {A} (m : result A) (h : string -> result A) : result A :=
  match m with
  | Ok a => Ok a
  | Throw e => h e
  end.

(* ------------------------------------------------------------------ *)
(** *** Objects as ordered maps                                        *)
(* ------------------------------------------------------------------ *)

Fixpoint lookup_prop {V} (k : string) (o : list (string * V)) : option V :=
  match o with
  | [] => None
  | (k', v) :: o' => if String.eqb k k' then Some v else lookup_prop k o'
  end.

(** [o[k] = v] on an object and [map.set(k, v)] on a [Map]: an existing key
    keeps its position and takes the new value, a new key goes last. *)
Fixpoint map_set {V} (k : string) (v : V) (o : list (string * V)) : list (string * V) :=
  match o with
  | [] => [(k, v)]
  | (k', v') :: o' =>
      if String.eqb k k' then (k, v) :: o' else (k', v') :: map_set k v o'
  end.

Definition keys {V} (o : list (string * V)) : list string := map fst o.
Definition values {V} (o : list (string * V)) : list V := map snd o.

(** [v.k] / [v[k]] for a [v] that is neither [null] nor [undefined]
    (on those the access throws, which callers model where it can happen):
    the own property of an object, [undefined] otherwise. *)
Definition prop (v : value) (k : string) : value :=
  match v with
  | VObj o => default VUndef (lookup_prop k o)
  | _ => VUndef
  end.

Definition nullish (v : value) : bool :=
  match v with
  | VUndef | VNull => true
  | _ => false
  end.

Definition truthy (v : value) : bool :=
  match v with
  | VUndef | VNull => false
  | VBool b => b
  | VNum (Fin z) => negb (z =? 0)
  | VNum NaN => false
  | VNum _ => true
  | VStr s => negb (String.eqb s "")
  | VArr _ | VObj _ => true
  end.

(** [a || b] and [a ?? b] on values. *)
Definition or_else (a b : value) : value := if truthy a then a else b.
Definition coalesce (a b : value) : value := if nullish a then b else a.

(* ------------------------------------------------------------------ *)
(** *** Conversions                                                    *)
(* ------------------------------------------------------------------ *)

Definition number_to_string (n : number) : string :=
  match n with
  | Fin z => pretty z
  | NaN => "NaN"
  | PosInf => "Infinity"
  | NegInf => "-Infinity"
  end.

(** [String(v)].  Integers print in decimal (the form the runtime uses
    below 10^21); an object prints as [[object Object]]; an array joins
    its elements with commas, [null] and [undefined] printing as empty. *)
Fixpoint ToString (v : value) : string :=
  match v with
  | VUndef => "undefined"
  | VNull => "null"
  | VBool true => "true"
  | VBool false => "false"
  | VNum n => number_to_string n
  | VStr s => s
  | VArr items =>
      String.concat ","
        (map (fun x => if nullish x then "" else ToString x) items)
  | VObj _ => "[object Object]"
  end.

(** The functions of the runtime the sources rely on. *)
Record Host : Type := {
  (** [Date.parse(s)]; [None] is the invalid date (NaN). *)
  DateParse : string -> option Z;
  (** String-to-number conversion of [Number(s)]. *)
  StringToNumber : string -> number;
  (** [a.localeCompare(b, "ru", { sensitivity: "base" })]. *)
  localeCompare : string -> string -> Z;
  (** [s.trim()]. *)
  trim : string -> string;
  (** [encodeURIComponent(s)]. *)
  encodeURIComponent : string -> string;
  (** [JSON.stringify(v)]. *)
  JSON_stringify : value -> string;
  (** [JSON.parse(s)]; [None] when it throws. *)
  JSON_parse : string -> option value;
  (** The entries of [new URLSearchParams(s)], in order. *)
  URLSearchParams_entries : string -> list (string * string)
}.

Section Conversions.
Variable host : Host.

(** [Number(v)]. *)
Definition ToNumber (v : value) : number :=
  match v with
  | VUndef => NaN
  | VNull => Fin 0
  | VBool true => Fin 1
  | VBool false => Fin 0
  | VNum n => n
  | VStr s => StringToNumber host s
  | VArr _ | VObj _ => StringToNumber host (ToString v)
  end.

Definition isFinite (n : number) : option Z :=
  match n with
  | Fin z => Some z
  | _ => None
  end.

(** The time value of [new Date(v)]: a string is parsed, any other
    primitive is converted to a number and clipped to the range of
    time values; [None] is NaN. *)
Definition TimeClip (n : number) : option Z :=
  match n with
  | Fin z => if Z.abs z <=? 8640000000000000 then Some z else None
  | _ => None
  end.

Definition Date_getTime (v : value) : option Z :=
  match v with
  | VStr s => DateParse host s
  | VArr _ | VObj _ => DateParse host (ToString v)
  | _ => TimeClip (ToNumber v)
  end.
End Conversions.

(* ------------------------------------------------------------------ *)
(** *** Arrays: slice and sort                                         *)
(* ------------------------------------------------------------------ *)

(** [xs.slice(0, e)]: a negative [e] counts from the end. *)
Definition slice0 {A} (e : Z) (xs : list A) : list A :=
  if e <? 0 then take (Z.to_nat (Z.max (Z.of_nat (length xs) + e) 0)) xs
  else take (Z.to_nat e) xs.

(** [xs.sort(cmp)] is a stable sort; with a consistent comparator its
    result is the one of this insertion sort.  [[sort_by]] is for a
    comparator that cannot throw, [[sort_byM]] for one that can. *)
Section Sort.
Context {A : Type}.

Fixpoint insert_by (cmp : A -> A -> Z) (x : A) (l : list A) : list A :=
  match l with
  | [] => [x]
  | y :: l' => if cmp x y <=? 0 then x :: y :: l' else y :: insert_by cmp x l'
  end.

Fixpoint sort_by (cmp : A -> A -> Z) (l : list A) : list A :=
  match l with
  | [] => []
  | x :: l' => insert_by cmp x (sort_by cmp l')
  end.

Fixpoint insert_byM (cmp : A -> A -> result Z) (x : A) (l : list A)
  : result (list A) :=
  match l with
  | [] => Ok [x]
  | y :: l' =>
      c ← cmp x y;
      if c <=? 0 then Ok (x :: y :: l')
      else (r ← insert_byM cmp x l'; Ok (y :: r))
  end.

Fixpoint sort_byM (cmp : A -> A -> result Z) (l : list A) : result (list A) :=
  match l with
  | [] => Ok []
  | x :: l' => s ← sort_byM cmp l'; insert_byM cmp x s
  end.
End Sort.

(** The comparison [Array.prototype.sort] performs on array elements:
    [undefined] goes last without the comparator being called. *)
Definition SortCompare (cmp : value -> value -> result Z) (x y : value)
  : result Z :=
  match x, y with
  | VUndef, VUndef => Ok 0
  | VUndef, _ => Ok 1
  | _, VUndef => Ok (-1)
  | _, _ => cmp x y
  end.

Definition Array_sort (cmp : value -> value -> result Z) (xs : list value)
  : result (list value) :=
  sort_byM (SortCompare cmp) xs.

(* ================================================================== *)
(** ** wb.js: feedback                                                 *)
(* ================================================================== *)

Section Feedback.
Variable host : Host.

Definition parseDate (v : value) : Z :=
  if negb (truthy v) then 0
  else match Date_getTime host v with
       | None => 0
       | Some t => t
       end.

(** [x || y] on the numbers [parseDate] returns. *)
Definition or_date (x y : Z) : Z := if x =? 0 then y else x.

(** The key the comparator of [latestByDate] computes for a row. *)
Definition resolvedDate (a : value) : Z :=
  or_date (parseDate (prop a "createdDate"))
    (or_date (parseDate (prop a "createdAt"))
       (or_date (parseDate (prop a "date"))
          (or_date (parseDate (prop a "created"))
             (parseDate (prop a "updatedDate"))))).

(** The comparator [(a, b) => bDate - aDate]; reading a field of [null]
    throws. *)
Definition byDateDesc (a b : value) : result Z :=
  if nullish a || nullish b
  then Throw "TypeError: Cannot read properties of null"
  else Ok (resolvedDate b - resolvedDate a).

(** The first loop of [latestByDate]: the [Map] keyed by [String(row.id)]
    and the rows without id. *)
Definition partitionRows (rows : list value) : object * list value :=
  fold_left
    (fun '(m, withoutId) row =>
       if truthy row && negb (nullish (prop row "id"))
       then (map_set (ToString (prop row "id")) row m, withoutId)
       else (m, withoutId ++ [row]))
    rows ([], []).

Definition mergedRows (rows : list value) : list value :=
  let '(m, withoutId) := partitionRows rows in
  values m ++ withoutId.

Definition latestByDate (rows : list value) (limit : Z) : result (list value) :=
  all ← Array_sort byDateDesc (mergedRows rows);
  Ok (if limit =? 0 then all else slice0 limit all).

(** The comparator on rows that are not [null]. *)
Definition dateDesc (a b : value) : Z := resolvedDate b - resolvedDate a.
End Feedback.

(** The identity [latestByDate] deduplicates on: [String(row.id)] for a row
    with a non-null [id], nothing for the others. *)
Definition idKey (row : value) : option string :=
  if truthy row && negb (nullish (prop row "id"))
  then Some (ToString (prop row "id")) else None.

(** The first and the last row of [rows] carrying the identity [k]. *)
Definition firstWithId (k : string) (rows : list value) : option value :=
  head (filter (fun row => idKey row = Some k) rows).
Definition lastWithId (k : string) (rows : list value) : option value :=
  last (filter (fun row => idKey row = Some k) rows).

(** The date fields in the order the comparator tries them, and the first
    non-zero number of a list (zero when there is none). *)
Definition dateFields : list string :=
  ["createdDate"; "createdAt"; "date"; "created"; "updatedDate"].
Definition firstNonZero (l : list Z) : Z :=
  default 0 (head (filter (fun z => z <> 0) l)).

(** The [Map] of [latestByDate] after the rows of [rows], from the map [m]. *)
Definition idMap (rows : list value) (m : object) : object :=
  fold_left (fun m row => match idKey row with
                          | Some k => map_set k row m
                          | None => m
                          end) rows m.


(* ------------------------------------------------------------------ *)
(** *** The seller API, seen from the client                           *)
(* ------------------------------------------------------------------ *)

Inductive endpoint : Type := Feedbacks | Questions.

(** What a call of [fetch] sends. *)
Inductive request : Type :=
| FeedbackList (ep : endpoint) (token : string) (isAnswered : bool)
    (take skip : Z) (order : string) (nmId : option string)
| CardsList (token : string) (limit : Z) (cursor : option (string * number)).

(** What it gets back: a rejected [fetch], or a response with its status,
    its body as text and as JSON ([None] when the body does not parse). *)
Inductive response : Type :=
| NetworkError (e : string)
| HttpResponse (ok : bool) (status : Z) (text : string) (json : option value).

Definition is_true (v : value) : bool :=
  match v with
  | VBool true => true
  | _ => false
  end.

Definition fetchJson (http : request -> response) (req : request) : result value :=
  match http req with
  | NetworkError e => Throw e
  | HttpResponse ok status text json =>
      if negb ok then Throw ("WB API " +:+ pretty status +:+ ": " +:+ text)
      else match json with
           | None => Throw "SyntaxError: invalid JSON"
           | Some payload =>
               if truthy payload && is_true (prop payload "error")
               then Throw (ToString (or_else (prop payload "errorText")
                                       (VStr "WB API error")))
               else Ok payload
           end
  end.

Section FeedbackFetch.
Variable host : Host.
Variable http : request -> response.

(** [if (nmId) params.set("nmId", String(nmId))]. *)
Definition nmId_param (nmId : number) : option string :=
  if truthy (VNum nmId) then Some (number_to_string nmId) else None.

(** The tail shared by [fetchFeedbacks] and [fetchQuestions]:
    [data = payload.data || payload], then [data[field]] if it is an
    array, else [data] if it is an array, else the empty array. *)
Definition listOf (field : string) (payload : value) : result (list value) :=
  if nullish payload
  then Throw "TypeError: Cannot read properties of null"
  else
    let data := or_else (prop payload "data") payload in
    match prop data field with
    | VArr l => Ok l
    | _ => match data with
           | VArr l => Ok l
           | _ => Ok []
           end
    end.

Definition fetchFeedbacks (token : string) (nmId : number)
    (isAnswered : bool) (take skip : Z) (order : string) : result (list value) :=
  payload ← fetchJson http
    (FeedbackList Feedbacks token isAnswered take skip order (nmId_param nmId));
  listOf "feedbacks" payload.

Definition fetchQuestions (token : string) (nmId : number)
    (isAnswered : bool) (take skip : Z) (order : string) : result (list value) :=
  payload ← fetchJson http
    (FeedbackList Questions token isAnswered take skip order (nmId_param nmId));
  listOf "questions" payload.

Definition fetchLatestReviews (token : string) (nmId : number) (limit : Z)
  : result (list value) :=
  let take := Z.min (Z.max limit 1) 500 in
  unanswered ← fetchFeedbacks token nmId false take 0 "dateDesc";
  answered ← fetchFeedbacks token nmId true take 0 "dateDesc";
  latestByDate host (unanswered ++ answered) limit.

(** One [while] loop of [fetchAllQuestions], from offset [skip] with
    [items] accumulated so far.  [fuel] bounds the number of pages
    requested; [None] means the bound was hit before the loop ended. *)
Fixpoint walkQuestions (fuel : nat) (token : string) (nmId : number)
    (limit : Z) (isAnswered : bool) (skip : Z) (items : list value)
  : option (result (list value)) :=
  if negb (Z.of_nat (length items) <? limit) then Some (Ok items)
  else
    match fuel with
    | O => None
    | S fuel' =>
        match fetchQuestions token nmId isAnswered 1000 skip "dateDesc" with
        | Throw e => Some (Throw e)
        | Ok batch =>
            if Z.of_nat (length batch) =? 0 then Some (Ok items)
            else
              let items' := items ++ batch in
              if Z.of_nat (length batch) <? 1000 then Some (Ok items')
              else
                let skip' := skip + Z.of_nat (length batch) in
                if 10000 <? skip' then Some (Ok items')
                else walkQuestions fuel' token nmId limit isAnswered skip' items'
        end
    end.

Definition fetchAllQuestions (fuel : nat) (token : string) (nmId : number)
    (limit : Z) : option (result (list value)) :=
  match walkQuestions fuel token nmId limit false 0 [] with
  | None => None
  | Some (Throw e) => Some (Throw e)
  | Some (Ok items) =>
      match walkQuestions fuel token nmId limit true 0 items with
      | None => None
      | Some (Throw e) => Some (Throw e)
      | Some (Ok items') => Some (latestByDate host items' limit)
      end
  end.
End FeedbackFetch.

(* ================================================================== *)
(** ** wb.js: catalog                                                  *)
(* ================================================================== *)

Record Product : Type := {
  nm_id : Z;
  title : string;
  vendor_code : string;
  photo_url : option string
}.

#[global] Instance Product_eq_dec : EqDecision Product.
Proof. solve_decision. Defined.

(** [s.includes(c)] for a one-character [c]. *)
Fixpoint includes_char (c : ascii) (s : string) : bool :=
  match s with
  | EmptyString => false
  | String x s' => Ascii.eqb x c || includes_char c s'
  end.

Definition startsWith_http (v : value) : option string :=
  match v with
  | VStr s => if String.prefix "http" s then Some s else None
  | _ => None
  end.

(** A photo candidate [[baseScore, isMain, score, -index, url]]. *)
Record candidate : Type := {
  c_base : Z;
  c_main : Z;
  c_score : Z;
  c_negidx : Z;
  c_url : string
}.

Definition keyScores : list (string * Z) :=
  [("big", 60); ("c516x688", 55); ("c246x328", 50); ("tm", 45); ("url", 40)].

(** The comparator of [candidates.sort]: the first of the four numeric
    components that differs decides, larger first. *)
Definition compareCandidates (a b : candidate) : Z :=
  if negb (c_base a =? c_base b) then c_base b - c_base a
  else if negb (c_main a =? c_main b) then c_main b - c_main a
  else if negb (c_score a =? c_score b) then c_score b - c_score a
  else if negb (c_negidx a =? c_negidx b) then c_negidx b - c_negidx a
  else 0.

Section Catalog.
Variable host : Host.

Definition appendPhotoVersion (url : string) (card : value) : string :=
  let versionRaw :=
    or_else (prop card "updatedAt")
      (or_else (prop card "updateAt")
         (or_else (prop card "modifiedAt") (prop card "createdAt"))) in
  if negb (truthy versionRaw) then url
  else
    let version := trim host (ToString versionRaw) in
    if String.eqb version "" then url
    else
      let joiner := if includes_char "?" url then "&" else "?" in
      url +:+ joiner +:+ "wbv=" +:+ encodeURIComponent host version.

(** What [collect] pushes for the entry [item] at position [index]. *)
Definition collectItem (baseScore : Z) (index : nat) (item : value)
  : list candidate :=
  match item with
  | VStr s =>
      if String.prefix "http" s
      then [ {| c_base := baseScore; c_main := 0; c_score := 0;
                c_negidx := - Z.of_nat index; c_url := s |} ]
      else []
  | VArr _ | VObj _ =>
      let isMain := if is_true (prop item "isMain") then 1 else 0 in
      omap (fun '(key, score) =>
              match startsWith_http (prop item key) with
              | Some u => Some {| c_base := baseScore; c_main := isMain;
                                  c_score := score;
                                  c_negidx := - Z.of_nat index; c_url := u |}
              | None => None
              end) keyScores
  | _ => []
  end.

Definition collect (items : value) (baseScore : Z) : list candidate :=
  match items with
  | VArr l => concat (imap (collectItem baseScore) l)
  | _ => []
  end.

Definition photoCandidates (card : value) : list candidate :=
  collect (prop card "photos") 30
  ++ collect (prop card "mediaFiles") 20
  ++ collect (prop card "images") 10.

Definition selectPhotoUrl (card : value) : option string :=
  match sort_by compareCandidates (photoCandidates card) with
  | best :: _ => Some (appendPhotoVersion (c_url best) card)
  | [] =>
      match startsWith_http (prop card "photo") with
      | Some u => Some (appendPhotoVersion u card)
      | None =>
          match startsWith_http (prop card "image") with
          | Some u => Some (appendPhotoVersion u card)
          | None =>
              match startsWith_http (prop card "imageUrl") with
              | Some u => Some (appendPhotoVersion u card)
              | None => None
              end
          end
      end
  end.

(** [Number(card.nmID ?? card.nmId)] when it is finite. *)
Definition cardId (card : value) : option Z :=
  isFinite (ToNumber host (coalesce (prop card "nmID") (prop card "nmId"))).

Definition makeProduct (nmId : Z) (card : value) : Product :=
  {| nm_id := nmId;
     title := trim host (ToString
                (or_else (prop card "title")
                   (or_else (prop card "subjectName") (VStr "Без названия"))));
     vendor_code :=
       (let v := trim host (ToString (or_else (prop card "vendorCode") (VStr "-"))) in
        if String.eqb v "" then "-" else v);
     photo_url := selectPhotoUrl card |}.

(** The loop of [normalizeProducts]: [seen] and [products] after the
    cards of [cards]; reading a field of a [null] card throws. *)
Fixpoint scanCards (cards : list value) (seen : gset Z) (products : list Product)
  : result (list Product) :=
  match cards with
  | [] => Ok products
  | card :: cards' =>
      if nullish card
      then Throw "TypeError: Cannot read properties of null"
      else
        match cardId card with
        | None => scanCards cards' seen products
        | Some nmId =>
            if decide (nmId ∈ seen) then scanCards cards' seen products
            else scanCards cards' ({[nmId]} ∪ seen)
                   (products ++ [makeProduct nmId card])
        end
  end.

(** The first card of [cards] whose identifier is [id]. *)
Definition firstCardWithId (id : Z) (cards : list value) : option value :=
  head (filter (fun card => cardId card = Some id) cards).

Definition compareProducts (a b : Product) : Z :=
  let titleCompare := localeCompare host (title a) (title b) in
  if negb (titleCompare =? 0) then titleCompare
  else nm_id a - nm_id b.

Definition normalizeProducts (cards : list value) : result (list Product) :=
  products ← scanCards cards ∅ [];
  Ok (sort_by compareProducts products).

Variable http : request -> response.

(** The [while (true)] loop of [fetchProductCards]: the cards accumulated
    when it breaks.  [cursor] is the pair [(cursorUpdatedAt, cursorNmId)],
    [None] while both are [null]. *)
Fixpoint walkCards (fuel : nat) (token : string) (pageSize maxItems : Z)
    (cursor : option (string * number)) (cards : list value)
  : option (result (list value)) :=
  match fuel with
  | O => None
  | S fuel' =>
      let limit := Z.min pageSize 100 in
      let sent :=
        match cursor with
        | Some (updatedAt, nmID) =>
            if negb (String.eqb updatedAt "") && truthy (VNum nmID)
            then cursor else None
        | None => None
        end in
      match fetchJson http (CardsList token limit sent) with
      | Throw e => Some (Throw e)
      | Ok payload =>
          if nullish payload
          then Some (Throw "TypeError: Cannot read properties of null")
          else
            let batch := match prop payload "cards" with
                         | VArr l => l
                         | _ => []
                         end in
            let cards' := cards ++ batch in
            if negb (maxItems =? 0) && (maxItems <=? Z.of_nat (length cards'))
            then Some (Ok cards')
            else if Z.of_nat (length batch) <? limit then Some (Ok cards')
            else
              let cursorPayload := or_else (prop payload "cursor") (VObj []) in
              if negb (truthy (prop cursorPayload "updatedAt"))
                 || negb (truthy (prop cursorPayload "nmID"))
              then Some (Ok cards')
              else
                let cursorUpdatedAt := ToString (prop cursorPayload "updatedAt") in
                let cursorNmId := ToNumber host (prop cursorPayload "nmID") in
                if negb (truthy (VNum cursorNmId)) then Some (Ok cards')
                else walkCards fuel' token pageSize maxItems
                       (Some (cursorUpdatedAt, cursorNmId)) cards'
      end
  end.

(** The last line of [fetchProductCards], on the accumulated cards. *)
Definition finishProductCards (cards : list value) (maxItems : Z)
  : result (list Product) :=
  normalizeProducts (slice0 maxItems cards).

Definition fetchProductCards (fuel : nat) (token : string)
    (pageSize maxItems : Z) : option (result (list Product)) :=
  match walkCards fuel token pageSize maxItems None [] with
  | None => None
  | Some (Throw e) => Some (Throw e)
  | Some (Ok cards) => Some (finishProductCards cards maxItems)
  end.
End Catalog.

(* ================================================================== *)
(** ** storage.js                                                      *)
(* ================================================================== *)

(** The commands sent to the remote key/value backend. *)
Inductive command : Type :=
| GET (key : string)
| SET (key : string) (v : value)
| DEL (key : string).

Section Storage.
(** The state of the remote backend, and how it answers a command. *)
Variable remote : Type.
Variable kv_http : remote -> command -> response * remote.

(** The state the module works on: whether both [KV_REST_API_URL] and
    [KV_REST_API_TOKEN] are set, the module-level [memoryStore], and the
    remote backend. *)
Record store : Type := {
  hasKV : bool;
  memoryStore : gmap string value;
  backend : remote
}.

Definition with_memory (f : gmap string value -> gmap string value)
    (st : store) : store :=
  {| hasKV := hasKV st; memoryStore := f (memoryStore st);
     backend := backend st |}.

Definition kvCommand (c : command) (st : store) : result value * store :=
  let '(resp, r') := kv_http (backend st) c in
  let st' := {| hasKV := hasKV st; memoryStore := memoryStore st;
                backend := r' |} in
  match resp with
  | NetworkError e => (Throw e, st')
  | HttpResponse ok status text json =>
      if negb ok
      then (Throw ("KV error " +:+ pretty status +:+ ": " +:+ text), st')
      else match json with
           | None => (Throw "SyntaxError: invalid JSON", st')
           | Some payload =>
               if nullish payload
               then (Throw "TypeError: Cannot read properties of null", st')
               else (Ok (prop payload "result"), st')
           end
  end.

(** [memoryStore.get(key) ?? null]. *)
Definition memory_get (key : string) (st : store) : value :=
  coalesce (default VUndef (memoryStore st !! key)) VNull.

Definition getValue (key : string) (st : store) : result value * store :=
  if negb (hasKV st) then (Ok (memory_get key st), st)
  else
    let '(r, st') := kvCommand (GET key) st in
    (try_catch (res ← r; Ok (coalesce res VNull))
       (fun _ => Ok (memory_get key st')), st').

Definition setValue (key : string) (v : value) (st : store)
  : result bool * store :=
  if negb (hasKV st) then (Ok true, with_memory <[key := v]> st)
  else
    match kvCommand (SET key v) st with
    | (Ok _, st') => (Ok true, st')
    | (Throw _, st') => (Ok false, with_memory <[key := v]> st')
    end.

Definition deleteValue (key : string) (st : store) : result bool * store :=
  let forget st0 :=
    (Ok (bool_decide (is_Some (memoryStore st0 !! key))),
     with_memory (delete key) st0) in
  if negb (hasKV st) then forget st
  else
    match kvCommand (DEL key) st with
    | (Ok _, st') => (Ok true, st')
    | (Throw _, st') => forget st'
    end.
End Storage.

Arguments hasKV {remote} _.
Arguments memoryStore {remote} _.
Arguments backend {remote} _.
Arguments with_memory {remote} f st.
Arguments memory_get {remote} key st.
Arguments kvCommand {remote} kv_http c st.
Arguments getValue {remote} kv_http key st.
Arguments setValue {remote} kv_http key v st.
Arguments deleteValue {remote} kv_http key st.

(* ================================================================== *)
(** ** csv.js                                                          *)
(* ================================================================== *)

Definition dquote : ascii := "034"%char.
Definition LF : ascii := "010"%char.
Definition CR : ascii := "013"%char.

(** U+FEFF, as the three bytes of its UTF-8 encoding. *)
Definition BOM : string :=
  String "239"%char (String "187"%char (String "191"%char EmptyString)).

(** The values a CSV cell is rendered from: no array and no object. *)
Definition scalar (v : value) : Prop :=
  match v with
  | VArr _ | VObj _ => False
  | _ => True
  end.

Section Csv.
Variable host : Host.

(** [flattenRow(obj, prefix, output)]; the result is [output] after the
    call. *)
Fixpoint flattenRow (obj : value) (prefix : string) (output : object) : object :=
  match obj with
  | VObj entries =>
      (fix each (es : object) (output : object) : object :=
         match es with
         | [] => output
         | (key, v) :: es' =>
             let nextKey :=
               if String.eqb prefix "" then key else prefix +:+ "." +:+ key in
             each es'
               match v with
               | VObj _ => flattenRow v nextKey output
               | VArr _ => map_set nextKey (VStr (JSON_stringify host v)) output
               | _ => map_set nextKey v output
               end
         end) entries output
  | _ => map_set (if String.eqb prefix "" then "value" else prefix) obj output
  end.

(** The [str.replace] of [csvEscape]: every double quote is doubled. *)
Fixpoint double_quotes (s : string) : string :=
  match s with
  | EmptyString => EmptyString
  | String c s' =>
      if Ascii.eqb c dquote then String dquote (String dquote (double_quotes s'))
      else String c (double_quotes s')
  end.

Definition csvEscape (v : value) : string :=
  if nullish v then ""
  else
    let str := ToString v in
    if includes_char dquote str || includes_char "," str
       || includes_char LF str || includes_char CR str
    then String dquote (double_quotes str) +:+ String dquote EmptyString
    else str.

(** [set.add(key)] on an insertion-ordered [Set]. *)
Definition set_add (key : string) (set : list string) : list string :=
  if bool_decide (key ∈ set) then set else set ++ [key].

(** The comparison of the default [sort()] on strings. *)
Definition compareStrings (a b : string) : Z :=
  match String.compare a b with
  | Lt => -1
  | Eq => 0
  | Gt => 1
  end.

Definition headersOf (flattened : list object) : list string :=
  sort_by compareStrings
    (fold_left (fun set row => fold_left (fun set key => set_add key set) (keys row) set)
       flattened []).

(** [row[key]]. *)
Definition cell (row : object) (key : string) : value :=
  default VUndef (lookup_prop key row).

Definition toCsv (rows : list value) : string :=
  let flattened := map (fun row => flattenRow row "" []) rows in
  let headers := headersOf flattened in
  let lines :=
    String.concat "," headers
    :: map (fun row => String.concat "," (map (fun key => csvEscape (cell row key)) headers))
         flattened in
  BOM +:+ String.concat (String LF EmptyString) lines.
End Csv.

(* ================================================================== *)
(** ** telegram.js                                                     *)
(* ================================================================== *)

(** [crypto.createHmac("sha256", key).update(msg).digest()]: SHA-256
    (FIPS 180-4) and HMAC (RFC 2104) on byte sequences, a byte being a
    [Z] in [0, 256) and a word a [Z] in [0, 2^32). *)
Module Sha256.

Definition w32 (x : Z) : Z := Z.land x 0xffffffff.
Definition add32 (x y : Z) : Z := w32 (x + y).
Definition rotr (n x : Z) : Z :=
  Z.lor (Z.shiftr x n) (w32 (Z.shiftl x (32 - n))).
Definition not32 (x : Z) : Z := Z.lxor x 0xffffffff.

Definition Ch (x y z : Z) : Z := Z.lxor (Z.land x y) (Z.land (not32 x) z).
Definition Maj (x y z : Z) : Z :=
  Z.lxor (Z.lxor (Z.land x y) (Z.land x z)) (Z.land y z).
Definition Sigma0 (x : Z) : Z :=
  Z.lxor (Z.lxor (rotr 2 x) (rotr 13 x)) (rotr 22 x).
Definition Sigma1 (x : Z) : Z :=
  Z.lxor (Z.lxor (rotr 6 x) (rotr 11 x)) (rotr 25 x).
Definition sigma0 (x : Z) : Z :=
  Z.lxor (Z.lxor (rotr 7 x) (rotr 18 x)) (Z.shiftr x 3).
Definition sigma1 (x : Z) : Z :=
  Z.lxor (Z.lxor (rotr 17 x) (rotr 19 x)) (Z.shiftr x 10).

(** The first 64 primes. *)
Definition is_prime (n : Z) : bool :=
  forallb (fun d => negb (n mod d =? 0) || (n <? d * d)) (seqZ 2 (n - 2)).

Definition primes : list Z :=
  Eval vm_compute in take 64 (filter (fun n => is_prime n = true) (seqZ 2 400)).

(** The integer cube root, bit by bit from bit [k - 1] down. *)
Fixpoint cbrt_bits (k : nat) (n r : Z) : Z :=
  match k with
  | O => r
  | S k' =>
      let r' := r + 2 ^ Z.of_nat k' in
      cbrt_bits k' n (if r' * r' * r' <=? n then r' else r)
  end.

(** The round constants: the first 32 bits of the fractional parts of the
    cube roots of the first 64 primes. *)
Definition K : list Z :=
  Eval vm_compute in map (fun p => w32 (cbrt_bits 40 (p * 2 ^ 96) 0)) primes.

(** The initial hash value: the first 32 bits of the fractional parts of
    the square roots of the first 8 primes. *)
Definition H0 : list Z :=
  Eval vm_compute in map (fun p => w32 (Z.sqrt (p * 2 ^ 64))) (take 8 primes).

(** Big-endian conversions. *)
Fixpoint be_bytes (n : nat) (x : Z) : list Z :=
  match n with
  | O => []
  | S n' => be_bytes n' (Z.shiftr x 8) ++ [Z.land x 0xff]
  end.

Definition be_word (bs : list Z) : Z :=
  fold_left (fun acc b => Z.lor (Z.shiftl acc 8) b) bs 0.

(** The message followed by the bit 1, zeros up to 56 modulo 64 bytes
    and the bit length on 8 bytes. *)
Definition pad (msg : list Z) : list Z :=
  let len := Z.of_nat (length msg) in
  let zeros := Z.to_nat ((55 - len) mod 64) in
  msg ++ [0x80] ++ replicate zeros 0 ++ be_bytes 8 (8 * len).

Fixpoint chunks (n : nat) (fuel : nat) (bs : list Z) : list (list Z) :=
  match fuel, bs with
  | _, [] => []
  | O, _ => []
  | S fuel', _ => take n bs :: chunks n fuel' (drop n bs)
  end.

(** The message schedule, most recent word first: from [W(t-1) .. W(t-16)]
    at the head, [n] further words. *)
Fixpoint extend (n : nat) (ws : list Z) : list Z :=
  match n with
  | O => ws
  | S n' =>
      let w := add32 (add32 (sigma1 (nth 1 ws 0)) (nth 6 ws 0))
                     (add32 (sigma0 (nth 14 ws 0)) (nth 15 ws 0)) in
      extend n' (w :: ws)
  end.

Definition schedule (block : list Z) : list Z :=
  rev (extend 48 (rev (map be_word (chunks 4 16 block)))).

Definition round (st : list Z) (kw : Z * Z) : list Z :=
  match st with
  | [a; b; c; d; e; f; g; h] =>
      let T1 := add32 (add32 (add32 h (Sigma1 e)) (Ch e f g))
                      (add32 (fst kw) (snd kw)) in
      let T2 := add32 (Sigma0 a) (Maj a b c) in
      [add32 T1 T2; a; b; c; add32 d T1; e; f; g]
  | _ => st
  end.

Definition compress (h : list Z) (block : list Z) : list Z :=
  zip_with add32 h (fold_left round (zip K (schedule block)) h).

Definition sha256 (msg : list Z) : list Z :=
  let padded := pad msg in
  concat (map (be_bytes 4)
            (fold_left compress (chunks 64 (length padded) padded) H0)).

Definition hmac (key msg : list Z) : list Z :=
  let key' := if (64 <? length key)%nat then sha256 key else key in
  let block := key' ++ replicate (64 - length key') 0 in
  sha256 (map (Z.lxor 0x5c) block ++ sha256 (map (Z.lxor 0x36) block ++ msg)).

Definition bytes_of_string (s : string) : list Z :=
  map (fun c => Z.of_N (N_of_ascii c)) (list_ascii_of_string s).

Definition hex_char (n : Z) : ascii :=
  ascii_of_N (Z.to_N (if n <? 10 then 48 + n else 87 + n)).

(** [digest("hex")]: two lower-case hexadecimal digits per byte. *)
Definition hex (bs : list Z) : string :=
  string_of_list_ascii
    (concat (map (fun b => [hex_char (b / 16); hex_char (b mod 16)]) bs)).
End Sha256.

Arguments Sha256.sha256 : simpl never.
Arguments Sha256.hmac : simpl never.
Arguments Sha256.hex : simpl never.

(** The outcome of [verifyInitData]: [{ ok: false, error }] or
    [{ ok: true, data, user }]. *)
Inductive verification : Type :=
| Rejected (error : string)
| Accepted (data : list (string * string)) (user : value).

Section Telegram.
Variable host : Host.

Definition parseInitData (initData : string) : list (string * string) :=
  fold_left (fun data '(key, v) => map_set key v data)
    (URLSearchParams_entries host initData) [].

Definition field (data : list (string * string)) (key : string) : string :=
  default "" (lookup_prop key data).

Definition buildDataCheckString (data : list (string * string)) : string :=
  let ks := sort_by compareStrings
              (filter (fun key => key <> "hash") (keys data)) in
  String.concat (String LF EmptyString)
    (map (fun key => key +:+ "=" +:+ field data key) ks).

(** [createHmac("sha256", "WebAppData").update(botToken).digest()]. *)
Definition secretKey (botToken : string) : list Z :=
  Sha256.hmac (Sha256.bytes_of_string "WebAppData")
              (Sha256.bytes_of_string botToken).

(** [createHmac("sha256", secretKey).update(dataCheckString).digest("hex")]. *)
Definition computedHash (botToken : string) (data : list (string * string))
  : string :=
  Sha256.hex (Sha256.hmac (secretKey botToken)
                (Sha256.bytes_of_string (buildDataCheckString data))).



(** [now - authDate > maxAgeSeconds] for a truthy [authDate]. *)
Definition expired (now : Z) (authDate : number) (maxAgeSeconds : Z) : bool :=
  match authDate with
  | Fin a => maxAgeSeconds <? now - a
  | NegInf => true
  | _ => false
  end.

(** [verifyInitData(initData, botToken, maxAgeSeconds)]; a missing
    argument is the empty string, [nowMs] is what [Date.now()] returns. *)
Definition verifyInitData (nowMs : Z) (initData botToken : string)
    (maxAgeSeconds : Z) : verification :=
  if String.eqb initData "" || String.eqb botToken ""
  then Rejected "Missing initData or bot token."
  else
    let data := parseInitData initData in
    if String.eqb (field data "hash") ""
    then Rejected "Missing hash in initData."
    else if negb (String.eqb (computedHash botToken data) (field data "hash"))
    then Rejected "Invalid initData signature."
    else
      let authDate :=
        if String.eqb (field data "auth_date") "" then Fin 0
        else StringToNumber host (field data "auth_date") in
      if negb (maxAgeSeconds =? 0) && truthy (VNum authDate)
         && expired (nowMs / 1000) authDate maxAgeSeconds
      then Rejected "initData expired."
      else if String.eqb (field data "user") "" then Accepted data VNull
      else match JSON_parse host (field data "user") with
           | None => Rejected "Invalid user JSON."
           | Some user => Accepted data user
           end.
End Telegram.

(* ================================================================== *)
(** ** The request handlers                                            *)
(* ================================================================== *)

(** What a handler sends: [res.status(s).json(body)], or
    [res.status(s).send(text)] after [setHeader] calls; [Uncaught] is an
    exception thrown outside the [try] of the handler. *)
Inductive reply : Type :=
| Json (status : Z) (body : value)
| Sent (status : Z) (headers : list (string * string)) (text : string)
| Uncaught (e : string).

Definition statusOf (r : reply) : option Z :=
  match r with
  | Json status _ | Sent status _ _ => Some status
  | Uncaught _ => None
  end.

Definition errorBody (message : string) : value :=
  VObj [("error", VStr message)].

(** The JSON form of a product. *)
Definition productJson (p : Product) : value :=
  VObj [("nm_id", VNum (Fin (nm_id p))); ("title", VStr (title p));
        ("vendor_code", VStr (vendor_code p));
        ("photo_url", match photo_url p with
                      | Some u => VStr u
                      | None => VNull
                      end)].

(** [err.message || fallback] for a caught exception. *)
Definition messageOr (fallback e : string) : string :=
  if String.eqb e "" then fallback else e.

Section Handlers.
Variable host : Host.
Variable remote : Type.
Variable kv_http : remote -> command -> response * remote.
Variable http : request -> response.

(** [botToken] is [process.env.TELEGRAM_BOT_TOKEN] (empty when unset) and
    [nowMs] the clock.  A handler returns [None] where the model stops:
    when [initData] is neither a string nor falsy (the constructor of
    [URLSearchParams] then reads it as a record or a list of pairs), and
    when [fuel] pages did not end a page walk. *)
Variable botToken : string.
Variable nowMs : Z.

(** [req.body || {}]. *)
Definition bodyOf (body : value) : value := or_else body (VObj []).

Definition initDataOf (body : value) : option string :=
  match prop (bodyOf body) "initData" with
  | VStr s => Some s
  | v => if truthy v then None else Some ""
  end.

(** The steps every handler starts with, up to the check of [user.id]:
    either the reply that ends the request, or the user. *)
Definition authenticate (method : string) (body : value)
  : option (reply + value) :=
  if negb (String.eqb method "POST")
  then Some (inl (Json 405 (errorBody "Method not allowed")))
  else
    match initDataOf body with
    | None => None
    | Some initData =>
        match verifyInitData host nowMs initData botToken 86400 with
        | Rejected e => Some (inl (Json 401 (errorBody e)))
        | Accepted _ u =>
            let user := or_else u (VObj []) in
            if negb (truthy (prop user "id"))
            then Some (inl (Json 400 (errorBody "Missing user in initData.")))
            else Some (inr user)
        end
    end.

Definition tokenKey (user : value) : string :=
  "user:" +:+ ToString (prop user "id") +:+ ":wb_token".

(** api/wb/token.js, first handler: save the seller token. *)
Definition saveTokenHandler (method : string) (body : value) (st : store remote)
  : option (reply * store remote) :=
  match authenticate method body with
  | None => None
  | Some (inl r) => Some (r, st)
  | Some (inr user) =>
      match prop (bodyOf body) "wbToken" with
      | VStr w =>
          if String.eqb w ""
          then Some (Json 400 (errorBody "Missing WB token."), st)
          else
            let '(_, st') :=
              setValue kv_http (tokenKey user) (VStr (trim host w)) st in
            Some (Json 200 (VObj [("ok", VBool true)]), st')
      | _ => Some (Json 400 (errorBody "Missing WB token."), st)
      end
  end.

(** api/wb/token.js, second handler: who is calling. *)
Definition whoAmIHandler (method : string) (body : value) : option reply :=
  match authenticate method body with
  | None => None
  | Some (inl r) => Some r
  | Some (inr user) => Some (Json 200 (VObj [("telegram_id", prop user "id")]))
  end.

(** The catalog handler: the products of the caller. *)
Definition productsHandler (fuel : nat) (method : string) (body : value)
    (st : store remote) : option (reply * store remote) :=
  match authenticate method body with
  | None => None
  | Some (inl r) => Some (r, st)
  | Some (inr user) =>
      let '(got, st') := getValue kv_http (tokenKey user) st in
      match got with
      | Throw e => Some (Uncaught e, st')
      | Ok wbToken =>
          if negb (truthy wbToken)
          then Some (Json 401 (errorBody "WB token not set."), st')
          else
            match fetchProductCards host http fuel (ToString wbToken) 100 2000 with
            | None => None
            | Some (Ok products) =>
                Some (Json 200 (VObj [("products", VArr (map productJson products))]),
                      st')
            | Some (Throw e) =>
                Some (Json 500 (errorBody (messageOr "WB API error" e)), st')
            end
      end
  end.

(** api/questions.js, first handler: the questions of a product as CSV. *)
Definition questionsHandler (fuel : nat) (method : string) (body : value)
    (st : store remote) : option (reply * store remote) :=
  match authenticate method body with
  | None => None
  | Some (inl r) => Some (r, st)
  | Some (inr user) =>
      let '(got, st') := getValue kv_http (tokenKey user) st in
      match got with
      | Throw e => Some (Uncaught e, st')
      | Ok wbToken =>
          let nmId := prop (bodyOf body) "nmId" in
          if negb (truthy wbToken)
          then Some (Json 401 (errorBody "WB token not set."), st')
          else if negb (truthy nmId)
          then Some (Json 400 (errorBody "Missing nmId."), st')
          else
            match fetchAllQuestions host http fuel (ToString wbToken)
                    (ToNumber host nmId) 10000 with
            | None => None
            | Some (Ok rows) =>
                Some (Sent 200
                        [("Content-Type", "text/csv; charset=utf-8");
                         ("Content-Disposition",
                          "attachment; filename=" +:+ String dquote "questions_"
                          +:+ ToString nmId +:+ ".csv" +:+ String dquote "")]
                        (toCsv host rows), st')
            | Some (Throw e) =>
                Some (Json 500 (errorBody (messageOr "WB API error" e)), st')
            end
      end
  end.
End Handlers.

Arguments bodyOf body : simpl never.
Arguments saveTokenHandler host {remote} kv_http botToken nowMs method body st.
Arguments productsHandler host {remote} kv_http http botToken nowMs fuel method body st.
Arguments questionsHandler host {remote} kv_http http botToken nowMs fuel method body st.

(* ================================================================== *)
(** ** A reference host                                                *)
(* ================================================================== *)

(** Executable instances of the [Host] functions, used to run the model on
    concrete inputs.  Each one computes what the runtime computes on the
    fragment described in its comment, which covers the inputs of the
    examples below. *)
Module RefHost.

Definition code (c : ascii) : Z := Z.of_N (N_of_ascii c).

Definition digit (c : ascii) : option Z :=
  if (48 <=? code c) && (code c <=? 57) then Some (code c - 48) else None.

Fixpoint digits (s : string) (acc : Z) : option Z :=
  match s with
  | EmptyString => Some acc
  | String c s' =>
      match digit c with
      | Some d => digits s' (10 * acc + d)
      | None => None
      end
  end.

Definition decimal (s : string) : option Z :=
  match s with
  | EmptyString => None
  | _ => digits s 0
  end.

(** Days from 1970-01-01 to the civil date [y]-[m]-[d]. *)
Definition days_from_civil (y m d : Z) : Z :=
  let y' := if m <=? 2 then y - 1 else y in
  let era := y' / 400 in
  let yoe := y' - era * 400 in
  let mp := if 2 <? m then m - 3 else m + 9 in
  let doy := (153 * mp + 2) / 5 + d - 1 in
  let doe := yoe * 365 + yoe / 4 - yoe / 100 + doy in
  era * 146097 + doe - 719468.

Definition leap (y : Z) : bool :=
  ((y mod 4 =? 0) && negb (y mod 100 =? 0)) || (y mod 400 =? 0).

Definition days_in_month (y m : Z) : Z :=
  if m =? 2 then (if leap y then 29 else 28)
  else if (m =? 4) || (m =? 6) || (m =? 9) || (m =? 11) then 30 else 31.

(** [Date.parse] on the date-only form [YYYY-MM-DD] (UTC midnight);
    every other string is reported invalid. *)
Definition DateParse (s : string) : option Z :=
  if (String.length s =? 10)%nat
     && String.eqb (substring 4 1 s) "-" && String.eqb (substring 7 1 s) "-"
  then
    match decimal (substring 0 4 s), decimal (substring 5 2 s),
          decimal (substring 8 2 s) with
    | Some y, Some m, Some d =>
        if (1 <=? m) && (m <=? 12) && (1 <=? d) && (d <=? days_in_month y m)
        then Some (days_from_civil y m d * 86400000)
        else None
    | _, _, _ => None
    end
  else None.

(** [Number(s)] on decimal integer literals with an optional minus sign
    and on the empty string; every other string is reported NaN. *)
Definition StringToNumber (s : string) : number :=
  match s with
  | EmptyString => Fin 0
  | String "-"%char s' =>
      match decimal s' with Some z => Fin (- z) | None => NaN end
  | _ => match decimal s with Some z => Fin z | None => NaN end
  end.

Definition lower (c : ascii) : ascii :=
  if (65 <=? code c) && (code c <=? 90)
  then ascii_of_N (Z.to_N (code c + 32)) else c.

Fixpoint compare_base (a b : string) : Z :=
  match a, b with
  | EmptyString, EmptyString => 0
  | EmptyString, String _ _ => -1
  | String _ _, EmptyString => 1
  | String x a', String y b' =>
      if code (lower x) <? code (lower y) then -1
      else if code (lower y) <? code (lower x) then 1
      else compare_base a' b'
  end.

(** [localeCompare] with base sensitivity on words of ASCII letters:
    alphabetical, ignoring case. *)
Definition localeCompare (a b : string) : Z := compare_base a b.

Definition is_space (c : ascii) : bool :=
  (code c =? 32) || ((9 <=? code c) && (code c <=? 13)).

Fixpoint trim_start (s : string) : string :=
  match s with
  | EmptyString => EmptyString
  | String c s' => if is_space c then trim_start s' else s
  end.

(** [trim] for ASCII white space. *)
Definition trim (s : string) : string :=
  String.rev (trim_start (String.rev (trim_start s))).

Definition hex_digit (n : Z) : ascii :=
  ascii_of_N (Z.to_N (if n <? 10 then 48 + n else 55 + n)).

Definition unreserved (c : ascii) : bool :=
  let n := code c in
  ((48 <=? n) && (n <=? 57)) || ((65 <=? n) && (n <=? 90))
  || ((97 <=? n) && (n <=? 122))
  || (n =? 45) || (n =? 95) || (n =? 46) || (n =? 33) || (n =? 126)
  || (n =? 42) || (n =? 39) || (n =? 40) || (n =? 41).

(** [encodeURIComponent]: every byte outside the unreserved set becomes
    [%XX]. *)
Fixpoint encodeURIComponent (s : string) : string :=
  match s with
  | EmptyString => EmptyString
  | String c s' =>
      if unreserved c then String c (encodeURIComponent s')
      else String "%" (String (hex_digit (code c / 16))
             (String (hex_digit (code c mod 16)) (encodeURIComponent s')))
  end.

(** [JSON.stringify] on arrays of numbers, booleans and [null]. *)
Definition JSON_stringify (v : value) : string :=
  match v with
  | VArr items =>
      "[" +:+ String.concat ","
                (map (fun x => match x with
                               | VNum (Fin z) => pretty z
                               | VBool true => "true"
                               | VBool false => "false"
                               | _ => "null"
                               end) items) +:+ "]"
  | _ => "null"
  end.

(** [JSON.parse] is not exercised by the examples. *)
Definition JSON_parse (s : string) : option value := None.

Fixpoint split_at (sep : ascii) (s : string) : string * option string :=
  match s with
  | EmptyString => (EmptyString, None)
  | String c s' =>
      if Ascii.eqb c sep then (EmptyString, Some s')
      else let '(a, b) := split_at sep s' in (String c a, b)
  end.

Fixpoint split_all (fuel : nat) (sep : ascii) (s : string) : list string :=
  match fuel with
  | O => [s]
  | S fuel' =>
      match split_at sep s with
      | (a, None) => [a]
      | (a, Some rest) => a :: split_all fuel' sep rest
      end
  end.

(** [URLSearchParams] on query strings without percent-escapes or [+]. *)
Definition URLSearchParams_entries (s : string) : list (string * string) :=
  omap (fun seg =>
          if String.eqb seg "" then None
          else let '(k, v) := split_at "=" seg in Some (k, default "" v))
       (split_all (String.length s) "&" s).

Definition host : Host :=
  Build_Host DateParse StringToNumber localeCompare trim encodeURIComponent
    JSON_stringify JSON_parse URLSearchParams_entries.
End RefHost.

(* ================================================================== *)
(** ** Example data                                                    *)
(* ================================================================== *)

Module Sample.
Definition num (z : Z) : value := VNum (Fin z).

(** The three feedback items of the ranking example. *)
Definition fb1 : value :=
  VObj [("id", num 1); ("createdDate", VStr "2024-01-01")].
Definition fb2 : value :=
  VObj [("id", num 2); ("createdDate", VStr "2024-03-01")].
Definition fb1' : value :=
  VObj [("id", num 1); ("createdDate", VStr "2024-01-02")].
Definition feedback : list value := [fb1; fb2; fb1'].

(** An item dated before 1970 and an item without any date. *)
Definition fbOld : value := VObj [("createdDate", VStr "1969-12-31")].
Definition fbUndated : value := VObj [("text", VStr "no date")].

(** Three catalog cards, two of them with the same identifier, and the
    products of the first and the third. *)
Definition cardA : value := VObj [("nmID", num 1); ("title", VStr "alpha")].
Definition cardA' : value := VObj [("nmID", num 1); ("title", VStr "again")].
Definition cardB : value := VObj [("nmID", num 2); ("title", VStr "beta")].
Definition productA : Product :=
  {| nm_id := 1; title := "alpha"; vendor_code := "-"; photo_url := None |}.
Definition productB : Product :=
  {| nm_id := 2; title := "beta"; vendor_code := "-"; photo_url := None |}.

(** A seller API whose catalog is one page with these three cards. *)
Definition onePage (req : request) : response :=
  HttpResponse true 200 ""
    (Some (VObj [("cards", VArr [cardA; cardA'; cardB]);
                 ("cursor", VObj [("total", num 3)])])).

(** An initData payload signed for the bot token [123:ABC]. *)
Definition botToken : string := "123:ABC".
Definition signature : string :=
  "5d17d965c5f552591e4f8b048782da075f8550de717d0137ca1e201ba6dd03bf".
Definition initData : string :=
  "auth_date=1700000000&query_id=q&hash=" +:+ signature.

(** A host that also reads user objects of the form [{id: digits}] in
    their JSON text, and a payload signed for [botToken] that names the
    user 42. *)
Definition userOpen : string :=
  "{" +:+ String dquote "id" +:+ String dquote ":".
Definition parseUser (s : string) : option value :=
  let n := String.length s in
  let k := String.length userOpen in
  if String.prefix userOpen s && String.eqb (substring (n - 1) 1 s) "}"
  then match RefHost.decimal (substring k (n - 1 - k) s) with
       | Some id => Some (VObj [("id", num id)])
       | None => None
       end
  else None.
Definition userHost : Host :=
  Build_Host RefHost.DateParse RefHost.StringToNumber RefHost.localeCompare
    RefHost.trim RefHost.encodeURIComponent RefHost.JSON_stringify parseUser
    RefHost.URLSearchParams_entries.
Definition userInitData : string :=
  "auth_date=1700000000&user=" +:+ userOpen +:+ "42}&hash="
  +:+ "9d6cda6285c707ee8542a190bb9984c6ddd322e018aa8a9bed33da139a56839c".
Definition saveRequest : value :=
  VObj [("initData", VStr userInitData); ("wbToken", VStr " seller-token ")].

(** The rows of the table example. *)
Definition tableRows : list value :=
  [VObj [("a", num 1); ("b", VObj [("c", num 2)])]; VObj [("a", num 3)]].

(** A store without remote configuration, and one whose remote backend
    is configured but unreachable. *)
Definition unreachable (r : unit) (c : command) : response * unit :=
  (NetworkError "fetch failed", r).
Definition localStore : store unit :=
  {| hasKV := false; memoryStore := ∅; backend := tt |}.
Definition degradedStore : store unit :=
  {| hasKV := true; memoryStore := ∅; backend := tt |}.

(** A seller API that has one unanswered question and fails on every
    request for answered ones. *)
Definition question : value :=
  VObj [("id", VStr "q1"); ("createdDate", VStr "2024-02-02")].
Definition unansweredOnly (req : request) : response :=
  match req with
  | FeedbackList Questions _ false _ _ _ _ =>
      HttpResponse true 200 ""
        (Some (VObj [("data", VObj [("questions", VArr [question])])]))
  | _ => NetworkError "answered partition is down"
  end.

(** A seller API with two unanswered reviews and one answered review. *)
Definition reviews (req : request) : response :=
  match req with
  | FeedbackList Feedbacks _ false _ _ _ _ =>
      HttpResponse true 200 ""
        (Some (VObj [("data", VObj [("feedbacks", VArr [fb1; fb2])])]))
  | FeedbackList Feedbacks _ true _ _ _ _ =>
      HttpResponse true 200 "" (Some (VObj [("feedbacks", VArr [fb1'])]))
  | _ => NetworkError "not served"
  end.

(** A card with a plain [tm] photo and a main media file. *)
Definition cardPhotos : value :=
  VObj [("nmID", num 7);
        ("photos", VArr [VObj [("tm", VStr "https://img/p-tm.webp")]]);
        ("mediaFiles",
         VArr [VObj [("isMain", VBool true);
                     ("big", VStr "https://img/m-big.webp")]])].
End Sample.

(* ================================================================== *)
(** ** Properties: the result monad and sorting                        *)
(* ================================================================== *)

Lemma bind_Ok {A B} (m : result A) (f : A -> result B) (b : B) :
  m ≫= f = Ok b -> exists a, m = Ok a /\ f a = Ok b.
Proof. destruct m as [a|e]; simpl; [eauto | discriminate]. Qed.

Section SortFacts.
Context {A : Type}.
Implicit Types (cmp : A -> A -> Z) (l : list A).

Lemma insert_by_Permutation cmp x l : Permutation (insert_by cmp x l) (x :: l).
Proof.
  induction l as [|y l IH]; simpl; [reflexivity|].
  destruct (cmp x y <=? 0); [reflexivity|].
  rewrite IH. apply perm_swap.
Qed.

Lemma sort_by_Permutation cmp l : Permutation (sort_by cmp l) l.
Proof.
  induction l as [|x l IH]; simpl; [reflexivity|].
  rewrite insert_by_Permutation. by constructor.
Qed.

Lemma sort_by_elem_of cmp l x : x ∈ sort_by cmp l <-> x ∈ l.
Proof. by rewrite (sort_by_Permutation cmp l). Qed.

Lemma sort_by_length cmp l : length (sort_by cmp l) = length l.
Proof. apply Permutation_length, sort_by_Permutation. Qed.

(** A comparator is consistent when "not after" is transitive and total. *)
Definition consistent cmp : Prop :=
  (forall a b c, cmp a b <= 0 -> cmp b c <= 0 -> cmp a c <= 0)
  /\ (forall a b, 0 < cmp a b -> cmp b a <= 0).

Lemma insert_by_sorted cmp x l :
  consistent cmp ->
  StronglySorted (fun a b => cmp a b <= 0) l ->
  StronglySorted (fun a b => cmp a b <= 0) (insert_by cmp x l).
Proof.
  intros [Htrans Htotal] Hl. induction Hl as [|y l Hl IH Hy]; simpl.
  - repeat constructor.
  - destruct (Z.leb_spec (cmp x y) 0) as [Hxy|Hxy].
    + constructor; [by constructor|].
      constructor; [done|].
      eapply Forall_impl; [exact Hy|]. intros z Hz. by eapply Htrans.
    + constructor; [done|].
      rewrite (insert_by_Permutation cmp x l). constructor; [|done].
      by apply Htotal.
Qed.

Lemma sort_by_sorted cmp l :
  consistent cmp -> StronglySorted (fun a b => cmp a b <= 0) (sort_by cmp l).
Proof.
  intros Hc. induction l as [|x l IH]; simpl; [constructor|].
  by apply insert_by_sorted.
Qed.

(** The head of a sorted array is not after any element. *)
Lemma sort_by_head cmp l best rest :
  consistent cmp -> sort_by cmp l = best :: rest ->
  forall x, x ∈ l -> x = best \/ cmp best x <= 0.
Proof.
  intros Hc Hs x Hx. pose proof (sort_by_sorted cmp l Hc) as Hsorted.
  rewrite Hs in Hsorted. apply StronglySorted_inv in Hsorted as [_ Hall].
  apply (sort_by_elem_of cmp) in Hx. rewrite Hs in Hx.
  apply elem_of_cons in Hx as [->|Hx]; [by left|right].
  rewrite Forall_forall in Hall. by apply Hall.
Qed.

(** A comparator that does not throw on the elements of the array. *)
Lemma insert_byM_pure (cmpM : A -> A -> result Z) cmp x l :
  (forall y, y ∈ l -> cmpM x y = Ok (cmp x y)) ->
  insert_byM cmpM x l = Ok (insert_by cmp x l).
Proof.
  induction l as [|y l IH]; intros H; simpl; [done|].
  rewrite (H y) by left. simpl.
  destruct (cmp x y <=? 0); [done|].
  rewrite IH; [done|]. intros z Hz. apply H. by right.
Qed.

Lemma sort_byM_pure (cmpM : A -> A -> result Z) cmp l :
  (forall x y, x ∈ l -> y ∈ l -> cmpM x y = Ok (cmp x y)) ->
  sort_byM cmpM l = Ok (sort_by cmp l).
Proof.
  induction l as [|x l IH]; intros H; simpl; [done|].
  rewrite IH by (intros; apply H; by right). simpl.
  apply insert_byM_pure. intros y Hy. apply H; [by left|].
  right. by apply (sort_by_elem_of cmp).
Qed.

Lemma insert_byM_Permutation (cmpM : A -> A -> result Z) x l out :
  insert_byM cmpM x l = Ok out -> Permutation out (x :: l).
Proof.
  revert out. induction l as [|y l IH]; intros out; simpl.
  - by intros [= <-].
  - destruct (cmpM x y) as [c|e]; simpl; [|done].
    destruct (c <=? 0); [by intros [= <-]|].
    destruct (insert_byM cmpM x l) as [r|e]; simpl; [|done].
    intros [= <-]. rewrite (IH r eq_refl). apply perm_swap.
Qed.

Lemma sort_byM_Permutation (cmpM : A -> A -> result Z) l out :
  sort_byM cmpM l = Ok out -> Permutation out l.
Proof.
  revert out. induction l as [|x l IH]; intros out; simpl.
  - by intros [= <-].
  - destruct (sort_byM cmpM l) as [s|e]; simpl; [|done].
    intros H. apply insert_byM_Permutation in H. rewrite H.
    constructor. by apply IH.
Qed.
End SortFacts.

(* ================================================================== *)
(** ** Properties: ordered maps                                        *)
(* ================================================================== *)

Section MapFacts.
Context {V : Type}.
Implicit Types (m : list (string * V)) (k : string) (v : V).

Lemma lookup_prop_map_set k k' v m :
  lookup_prop k (map_set k' v m) = if decide (k = k') then Some v else lookup_prop k m.
Proof.
  induction m as [|[k0 v0] m IH]; simpl.
  - destruct (String.eqb_spec k k'); by case_decide.
  - destruct (String.eqb_spec k' k0) as [->|Hne]; simpl.
    + destruct (String.eqb_spec k k0); by case_decide.
    + destruct (String.eqb_spec k k0) as [->|]; [|done].
      case_decide; congruence.
Qed.

Lemma keys_map_set k v m :
  keys (map_set k v m) = if bool_decide (k ∈ keys m) then keys m else keys m ++ [k].
Proof.
  induction m as [|[k0 v0] m IH]; simpl; [done|].
  destruct (String.eqb_spec k k0) as [->|Hne]; simpl.
  - rewrite bool_decide_eq_true_2; [done|left].
  - rewrite IH. case_bool_decide as Hin.
    + rewrite bool_decide_eq_true_2; [done|by right].
    + rewrite bool_decide_eq_false_2; [done|].
      intros [?|?]%elem_of_cons; congruence.
Qed.

Lemma NoDup_keys_map_set k v m : NoDup (keys m) -> NoDup (keys (map_set k v m)).
Proof.
  intros Hm. rewrite keys_map_set. case_bool_decide; [done|].
  apply NoDup_app. split_and!; [done| |apply NoDup_singleton].
  intros x Hx ->%list_elem_of_singleton. done.
Qed.

Lemma elem_of_map_set k v m kv :
  kv ∈ map_set k v m -> kv = (k, v) \/ kv ∈ m.
Proof.
  induction m as [|[k0 v0] m IH]; simpl.
  - intros ->%list_elem_of_singleton. by left.
  - destruct (String.eqb k k0).
    + intros [->|?]%elem_of_cons; [by left|right; by right].
    + intros [->|?]%elem_of_cons; [right; left|].
      destruct IH as [?|?]; [done|by left|right; by right].
Qed.

Lemma lookup_prop_elem_of k v m : lookup_prop k m = Some v -> (k, v) ∈ m.
Proof.
  induction m as [|[k0 v0] m IH]; simpl; [done|].
  destruct (String.eqb_spec k k0) as [->|].
  - intros [= ->]. left.
  - intros. right. auto.
Qed.

Lemma elem_of_lookup_prop k v m :
  NoDup (keys m) -> (k, v) ∈ m -> lookup_prop k m = Some v.
Proof.
  induction m as [|[k0 v0] m IH]; simpl; [by intros _ ?%elem_of_nil|].
  intros [Hk0 Hm]%NoDup_cons [[= -> ->]|Hin]%elem_of_cons.
  - by rewrite String.eqb_refl.
  - destruct (String.eqb_spec k k0) as [->|]; [|auto].
    exfalso. apply Hk0. unfold keys. apply list_elem_of_fmap.
    by exists (k0, v).
Qed.

End MapFacts.

(* ================================================================== *)
(** ** Properties: slices                                              *)
(* ================================================================== *)

Lemma slice0_sublist {A} (e : Z) (xs : list A) : slice0 e xs `sublist_of` xs.
Proof. unfold slice0. destruct (e <? 0); apply sublist_take. Qed.

Lemma slice0_take {A} (e : Z) (xs : list A) :
  0 <= e -> slice0 e xs = take (Z.to_nat e) xs.
Proof. intros He. unfold slice0. by destruct (Z.ltb_spec e 0); [lia|]. Qed.

Lemma slice0_length {A} (e : Z) (xs : list A) :
  0 <= e -> Z.of_nat (length (slice0 e xs)) <= e.
Proof. intros He. rewrite slice0_take, length_take by done. lia. Qed.

Lemma slice0_all {A} (e : Z) (xs : list A) :
  Z.of_nat (length xs) <= e -> slice0 e xs = xs.
Proof.
  intros He. rewrite slice0_take by lia. apply take_ge. lia.
Qed.

Lemma sublist_omap {A B} (f : A -> option B) (l1 l2 : list A) :
  l1 `sublist_of` l2 -> omap f l1 `sublist_of` omap f l2.
Proof.
  induction 1 as [|x l1 l2 _ IH|x l1 l2 _ IH]; simpl.
  - constructor.
  - destruct (f x); [by constructor|done].
  - destruct (f x); [by constructor|done].
Qed.

Lemma sublist_StronglySorted {A} (R : A -> A -> Prop) (l1 l2 : list A) :
  l1 `sublist_of` l2 -> StronglySorted R l2 -> StronglySorted R l1.
Proof.
  induction 1 as [|x l1 l2 Hsub IH|x l1 l2 Hsub IH]; intros Hs.
  - constructor.
  - apply StronglySorted_inv in Hs as [Hs Hall]. constructor; [auto|].
    rewrite Forall_forall in Hall |- *. intros y Hy. apply Hall.
    by eapply elem_of_sublist.
  - apply StronglySorted_inv in Hs as [Hs _]. auto.
Qed.

(* ================================================================== *)
(** ** Properties: latestByDate                                        *)
(* ================================================================== *)

Section FeedbackFacts.
Variable host : Host.

Lemma idKey_spec (row : value) :
  (if truthy row && negb (nullish (prop row "id"))
   then Some (ToString (prop row "id")) else None) = idKey row.
Proof. reflexivity. Qed.

Lemma idMap_cons row rows m :
  idMap (row :: rows) m
  = idMap rows (match idKey row with Some k => map_set k row m | None => m end).
Proof. reflexivity. Qed.

Lemma partitionRows_fold (rows : list value) (m : object) (w : list value) :
  fold_left
    (fun '(m, withoutId) row =>
       if truthy row && negb (nullish (prop row "id"))
       then (map_set (ToString (prop row "id")) row m, withoutId)
       else (m, withoutId ++ [row]))
    rows (m, w)
  = (idMap rows m, w ++ filter (fun row => idKey row = None) rows).
Proof.
  revert m w. induction rows as [|row rows IH]; intros m w.
  - simpl. by rewrite app_nil_r.
  - rewrite filter_cons, idMap_cons. cbn [fold_left].
    rewrite <- (idKey_spec row).
    destruct (truthy row && negb (nullish (prop row "id"))).
    + rewrite IH. by rewrite decide_False.
    + rewrite IH. rewrite decide_True by done. by rewrite <- app_assoc.
Qed.

Lemma mergedRows_eq (rows : list value) :
  mergedRows rows
  = values (idMap rows []) ++ filter (fun row => idKey row = None) rows.
Proof. unfold mergedRows, partitionRows. by rewrite partitionRows_fold. Qed.

Lemma idMap_lookup k rows m :
  lookup_prop k (idMap rows m)
  = match lastWithId k rows with
    | Some r => Some r
    | None => lookup_prop k m
    end.
Proof.
  revert m. induction rows as [|row rows IH]; intros m; [done|].
  rewrite idMap_cons, IH. unfold lastWithId. rewrite filter_cons.
  destruct (idKey row) as [k'|] eqn:Hk.
  - case_decide as Heq.
    + injection Heq as ->. rewrite last_cons.
      destruct (last _); [done|]. rewrite lookup_prop_map_set.
      by rewrite decide_True.
    + destruct (last _); [done|]. rewrite lookup_prop_map_set.
      rewrite decide_False; [done|congruence].
  - by rewrite decide_False.
Qed.

Lemma idMap_NoDup rows m : NoDup (keys m) -> NoDup (keys (idMap rows m)).
Proof.
  revert m. induction rows as [|row rows IH]; intros m Hm; [done|].
  rewrite idMap_cons. apply IH. destruct (idKey row); [|done].
  by apply NoDup_keys_map_set.
Qed.

Lemma idMap_keyed rows m :
  Forall (fun kv => idKey kv.2 = Some kv.1 /\ kv.2 ∈ rows) (idMap rows [])
  /\ (Forall (fun kv => idKey kv.2 = Some kv.1) m ->
      Forall (fun kv => idKey kv.2 = Some kv.1) (idMap rows m)).
Proof.
  assert (Hgen : forall (P : list value -> string * value -> Prop) rows0 m0,
    (forall l row kv, P l kv -> P (l ++ [row]) kv) ->
    (forall l row k, idKey row = Some k -> P (l ++ [row]) (k, row)) ->
    forall done, Forall (P done) m0 -> Forall (P (done ++ rows0)) (idMap rows0 m0)).
  { intros P rows0. induction rows0 as [|row rows0 IH]; intros m0 Hmono Hnew done0 Hm0.
    - by rewrite app_nil_r.
    - rewrite idMap_cons. replace (done0 ++ row :: rows0) with ((done0 ++ [row]) ++ rows0)
        by (by rewrite <- app_assoc).
      apply IH; [done|done|].
      destruct (idKey row) as [k|] eqn:Hk.
      + rewrite Forall_forall. intros kv [->|Hin]%elem_of_map_set.
        * by apply Hnew.
        * apply Hmono. rewrite Forall_forall in Hm0. by apply Hm0.
      + eapply Forall_impl; [exact Hm0|]. intros kv. apply Hmono. }
  split.
  - apply (Hgen (fun l kv => idKey kv.2 = Some kv.1 /\ kv.2 ∈ l) rows [] ) with (done := []).
    + intros l row kv [? ?]. split; [done|]. apply elem_of_app. by left.
    + intros l row k Hk. split; [done|]. simpl. apply elem_of_app. right. left.
    + constructor.
  - intros Hm.
    apply (Hgen (fun _ kv => idKey kv.2 = Some kv.1) rows m) with (done := []); auto.
Qed.

Lemma omap_idKey_values (m : object) :
  Forall (fun kv => idKey kv.2 = Some kv.1) m -> omap idKey (values m) = keys m.
Proof.
  induction 1 as [|[k v] m Hk _ IH]; [done|].
  cbn [values map snd omap list_omap keys fst] in *.
  rewrite Hk. simpl. f_equal. exact IH.
Qed.

Lemma omap_idKey_without (rows : list value) :
  omap idKey (filter (fun row => idKey row = None) rows) = [].
Proof.
  induction rows as [|row rows IH]; [done|]. rewrite filter_cons.
  case_decide as H; [|done]. simpl. by rewrite H.
Qed.

Lemma mergedRows_keys (rows : list value) :
  omap idKey (mergedRows rows) = keys (idMap rows []).
Proof.
  rewrite mergedRows_eq, omap_app, omap_idKey_without, app_nil_r.
  apply omap_idKey_values, (proj2 (idMap_keyed rows [])). constructor.
Qed.

Lemma mergedRows_elem_of (rows : list value) (row : value) :
  row ∈ mergedRows rows -> row ∈ rows.
Proof.
  rewrite mergedRows_eq. intros [Hin|Hin]%elem_of_app.
  - unfold values in Hin. apply list_elem_of_fmap in Hin as [kv [-> Hkv]].
    pose proof (proj1 (idMap_keyed rows [])) as Hall.
    rewrite Forall_forall in Hall. by apply Hall.
  - by apply list_elem_of_filter in Hin as [_ ?].
Qed.

Lemma length_map_set {V} (k : string) (v : V) (m : list (string * V)) :
  (length (map_set k v m) <= S (length m))%nat.
Proof.
  induction m as [|[k0 v0] m IH]; simpl; [lia|].
  destruct (String.eqb k k0); simpl; lia.
Qed.

Lemma mergedRows_length (rows : list value) :
  (length (mergedRows rows) <= length rows)%nat.
Proof.
  rewrite mergedRows_eq, length_app. unfold values. rewrite length_map.
  assert (H : forall m,
    (length (idMap rows m) + length (filter (fun row => idKey row = None) rows)
     <= length m + length rows)%nat); [|specialize (H []); simpl in H; lia].
  induction rows as [|row rows IH]; intros m; [simpl; lia|].
  rewrite idMap_cons, filter_cons. destruct (idKey row) as [k|] eqn:Hk.
  - rewrite decide_False by done. specialize (IH (map_set k row m)).
    pose proof (length_map_set k row m). simpl. lia.
  - rewrite decide_True by done. specialize (IH m). simpl. lia.
Qed.

(** The row kept for an identity is the last row carrying it. *)
Lemma mergedRows_last (rows : list value) (row : value) (k : string) :
  row ∈ mergedRows rows -> idKey row = Some k -> lastWithId k rows = Some row.
Proof.
  rewrite mergedRows_eq. intros [Hin|Hin]%elem_of_app Hk.
  - unfold values in Hin. apply list_elem_of_fmap in Hin as [[k' row'] [-> Hkv]].
    simpl in *. pose proof (proj1 (idMap_keyed rows [])) as Hall.
    rewrite Forall_forall in Hall. destruct (Hall _ Hkv) as [Hk' _]. simpl in Hk'.
    assert (k' = k) as -> by congruence.
    apply elem_of_lookup_prop in Hkv; [|apply idMap_NoDup; constructor].
    rewrite idMap_lookup in Hkv. by destruct (lastWithId k rows).
  - apply list_elem_of_filter in Hin as [Hnone _]. congruence.
Qed.

Lemma lastWithId_merged (rows : list value) (row : value) (k : string) :
  lastWithId k rows = Some row -> row ∈ mergedRows rows.
Proof.
  intros Hlast. rewrite mergedRows_eq. apply elem_of_app. left.
  pose proof (idMap_lookup k rows []) as Hl. rewrite Hlast in Hl.
  apply lookup_prop_elem_of in Hl. unfold values. apply list_elem_of_fmap.
  by exists (k, row).
Qed.

(** On rows none of which is [null], the comparator does not throw. *)
Lemma Array_sort_rows (l : list value) :
  Forall (fun r => nullish r = false) l ->
  Array_sort (byDateDesc host) l = Ok (sort_by (dateDesc host) l).
Proof.
  intros Hl. apply sort_byM_pure. intros x y Hx Hy.
  rewrite Forall_forall in Hl. pose proof (Hl x Hx) as Hnx. pose proof (Hl y Hy) as Hny.
  unfold SortCompare, byDateDesc, dateDesc. rewrite Hnx, Hny.
  by destruct x, y.
Qed.

Lemma dateDesc_consistent : consistent (dateDesc host).
Proof. unfold consistent, dateDesc. split; intros; lia. Qed.

Lemma latestByDate_rows (rows : list value) (limit : Z) :
  Forall (fun r => nullish r = false) rows ->
  latestByDate host rows limit
  = Ok (if limit =? 0 then sort_by (dateDesc host) (mergedRows rows)
        else slice0 limit (sort_by (dateDesc host) (mergedRows rows))).
Proof.
  intros Hrows. unfold latestByDate. rewrite Array_sort_rows; [done|].
  rewrite Forall_forall in Hrows |- *. intros r Hr. apply Hrows.
  by apply mergedRows_elem_of.
Qed.

Lemma latestByDate_sublist (rows : list value) (limit : Z) :
  (if limit =? 0 then sort_by (dateDesc host) (mergedRows rows)
   else slice0 limit (sort_by (dateDesc host) (mergedRows rows)))
  `sublist_of` sort_by (dateDesc host) (mergedRows rows).
Proof. destruct (limit =? 0); [done|apply slice0_sublist]. Qed.
End FeedbackFacts.

Section FeedbackClaims.
Variable host : Host.

Lemma resolvedDate_firstNonZero (a : value) :
  resolvedDate host a
  = firstNonZero (map (fun f => parseDate host (prop a f)) dateFields).
Proof.
  unfold resolvedDate, firstNonZero, dateFields, or_date. simpl.
  generalize (parseDate host (prop a "createdDate"))
             (parseDate host (prop a "createdAt"))
             (parseDate host (prop a "date"))
             (parseDate host (prop a "created"))
             (parseDate host (prop a "updatedDate")).
  intros d1 d2 d3 d4 d5. rewrite !filter_cons, filter_nil.
  destruct (Z.eqb_spec d1 0), (Z.eqb_spec d2 0), (Z.eqb_spec d3 0),
    (Z.eqb_spec d4 0); repeat case_decide; simpl; congruence.
Qed.

Lemma parseDate_zero (v : value) :
  truthy v = false \/ Date_getTime host v = None -> parseDate host v = 0.
Proof.
  unfold parseDate. intros [->| ->]; [done|]. by destruct (truthy v).
Qed.

Lemma sorted_rows_sorted (rows : list value) (limit : Z) :
  StronglySorted (fun a b => resolvedDate host b <= resolvedDate host a)
    (if limit =? 0 then sort_by (dateDesc host) (mergedRows rows)
     else slice0 limit (sort_by (dateDesc host) (mergedRows rows))).
Proof.
  eapply sublist_StronglySorted; [apply latestByDate_sublist|].
  pose proof (sort_by_sorted (dateDesc host) (mergedRows rows)
                (dateDesc_consistent host)) as Hs.
  clear -Hs. induction Hs as [|x l _ IH Hx]; constructor; [done|].
  eapply Forall_impl; [exact Hx|]. unfold dateDesc. intros; simpl in *; lia.
Qed.

(** C1, as amended.  On rows none of which is [null], [latestByDate]
    returns; its output holds at most one row per identity
    [String(row.id)]; a row of the output that carries an identity is the
    last row of the input carrying it (the [Map] keeps the latest value
    written under a key); and when the cap does not cut ([limit] is 0 or
    at least the number of rows), the last row of every identity is in
    the output. *)
Theorem latestByDate_keeps_last_per_id (rows : list value) (limit : Z) :
  Forall (fun r => nullish r = false) rows ->
  exists out,
    latestByDate host rows limit = Ok out
    /\ NoDup (omap idKey out)
    /\ (forall row k, row ∈ out -> idKey row = Some k ->
          lastWithId k rows = Some row)
    /\ (limit = 0 \/ Z.of_nat (length rows) <= limit ->
        forall row k, lastWithId k rows = Some row -> row ∈ out).
Proof.
  intros Hrows. eexists. split; [by apply latestByDate_rows|].
  pose proof (latestByDate_sublist host rows limit) as Hsub.
  split_and!.
  - eapply sublist_NoDup; [|apply sublist_omap, Hsub].
    rewrite (omap_Permutation idKey _ _ (sort_by_Permutation _ _)).
    rewrite mergedRows_keys. apply idMap_NoDup. constructor.
  - intros row k Hin Hk. apply mergedRows_last; [|done].
    apply (sort_by_elem_of (dateDesc host)). by eapply elem_of_sublist.
  - intros Hlimit row k Hlast.
    assert (Hall : (if limit =? 0 then sort_by (dateDesc host) (mergedRows rows)
                    else slice0 limit (sort_by (dateDesc host) (mergedRows rows)))
                   = sort_by (dateDesc host) (mergedRows rows)).
    { destruct (Z.eqb_spec limit 0); [done|]. apply slice0_all.
      rewrite sort_by_length. pose proof (mergedRows_length rows). lia. }
    rewrite Hall. apply sort_by_elem_of. by eapply lastWithId_merged.
Qed.

(** C5, as amended.  On rows none of which is [null], the output of
    [latestByDate] is in non-increasing order of resolved date; the
    resolved date of a row is the first non-zero result of [parseDate] on
    createdDate, createdAt, date, created, updatedDate, in this order; a
    row all of whose dates are missing or unparseable resolves to zero,
    and every row after it in the output has a resolved date of zero or
    less (so it ranks after every row dated after the epoch). *)
Theorem latestByDate_descending (rows : list value) (limit : Z) :
  Forall (fun r => nullish r = false) rows ->
  exists out,
    latestByDate host rows limit = Ok out
    /\ StronglySorted
         (fun a b => resolvedDate host b <= resolvedDate host a) out
    /\ (forall a, resolvedDate host a
                  = firstNonZero (map (fun f => parseDate host (prop a f))
                                    dateFields))
    /\ (forall before a after,
          out = before ++ a :: after ->
          (forall f, f ∈ dateFields ->
             truthy (prop a f) = false \/ Date_getTime host (prop a f) = None) ->
          resolvedDate host a = 0
          /\ Forall (fun b => 0 <= resolvedDate host b) before
          /\ Forall (fun b => resolvedDate host b <= 0) after).
Proof.
  intros Hrows. eexists. split; [by apply latestByDate_rows|].
  pose proof (sorted_rows_sorted rows limit) as Hsorted.
  split_and!; [done|apply resolvedDate_firstNonZero|].
  intros before a after Hout Hmissing.
  assert (Ha : resolvedDate host a = 0).
  { unfold resolvedDate.
    rewrite !parseDate_zero; [done|..]; apply Hmissing;
      apply list_elem_of_In; simpl; tauto. }
  rewrite Hout in Hsorted. split; [done|].
  apply StronglySorted_app in Hsorted as (Hba & _ & Ha').
  apply StronglySorted_inv in Ha' as [_ Hafter].
  split.
  - rewrite Forall_forall. intros b Hb'. rewrite <- Ha. apply Hba; [done|left].
  - eapply Forall_impl; [exact Hafter|]. intros b Hb'. simpl in Hb'. lia.
Qed.

(** C10.  With [limit] 0 the final cap is skipped: [latestByDate] returns
    the whole sorted array of merged rows, a permutation of them, where
    applying the cap would give the empty array; and
    [fetchLatestReviews(token, nmId, 0)] asks each partition for
    min(max(0, 1), 500) = 1 item and returns all the merged rows. *)
Theorem latestByDate_zero_limit_uncapped (http : request -> response)
    (token : string) (nmId : number) (rows : list value) :
  latestByDate host rows 0 = Array_sort (byDateDesc host) (mergedRows rows)
  /\ (forall out, latestByDate host rows 0 = Ok out ->
        out ≡ₚ mergedRows rows /\ (rows <> [] -> out <> []))
  /\ slice0 0 (mergedRows rows) = []
  /\ Z.min (Z.max 0 1) 500 = 1
  /\ fetchLatestReviews host http token nmId 0
     = (unanswered ← fetchFeedbacks http token nmId false 1 0 "dateDesc";
        answered ← fetchFeedbacks http token nmId true 1 0 "dateDesc";
        Array_sort (byDateDesc host) (mergedRows (unanswered ++ answered))).
Proof.
  assert (Hzero : forall rows0,
    latestByDate host rows0 0 = Array_sort (byDateDesc host) (mergedRows rows0)).
  { intros rows0. unfold latestByDate.
    by destruct (Array_sort (byDateDesc host) (mergedRows rows0)). }
  split_and!; [apply Hzero| |done|done|].
  - intros out Hout. rewrite Hzero in Hout.
    apply sort_byM_Permutation in Hout. split; [done|].
    intros Hrows ->. apply Permutation_nil_l in Hout.
    rewrite mergedRows_eq in Hout. symmetry in Hout.
    apply app_eq_nil in Hout as [Hm Hw].
    destruct rows as [|row rows']; [done|].
    destruct (idKey row) as [k|] eqn:Hk.
    + destruct (lastWithId k (row :: rows')) as [r|] eqn:Hlast.
      * apply lastWithId_merged in Hlast. rewrite mergedRows_eq, Hm, Hw in Hlast.
        by apply elem_of_nil in Hlast.
      * unfold lastWithId in Hlast. rewrite filter_cons, decide_True in Hlast by done.
        rewrite last_cons in Hlast. by destruct (last _).
    + rewrite filter_cons, decide_True in Hw by done. done.
  - unfold fetchLatestReviews.
    change (Z.min (Z.max 0 1) 500) with 1.
    destruct (fetchFeedbacks http token nmId false 1 0 "dateDesc"); [|done].
    destruct (fetchFeedbacks http token nmId true 1 0 "dateDesc"); [|done].
    simpl. apply Hzero.
Qed.
End FeedbackClaims.

(** The claimed output of the ranking example is not what [latestByDate]
    returns: the row kept for id 1 is the one dated 2024-01-02, the last
    row with that id, not the first. *)
Lemma latestByDate_first_seen_refuted :
  latestByDate RefHost.host Sample.feedback 500
    = Ok [Sample.fb2; Sample.fb1']
  /\ latestByDate RefHost.host Sample.feedback 500
    <> Ok [Sample.fb2; Sample.fb1]
  /\ firstWithId "1" Sample.feedback = Some Sample.fb1
  /\ lastWithId "1" Sample.feedback = Some Sample.fb1'.
Proof.
  split_and!; [by vm_compute| |by vm_compute|by vm_compute].
  vm_compute. intros H. discriminate H.
Qed.

Lemma latestByDate_keeps_last_per_id_witness :
  Forall (fun r => nullish r = false) Sample.feedback
  /\ exists out,
      latestByDate RefHost.host Sample.feedback 500 = Ok out
      /\ NoDup (omap idKey out)
      /\ (forall row k, row ∈ out -> idKey row = Some k ->
            lastWithId k Sample.feedback = Some row)
      /\ (500 = 0 \/ Z.of_nat (length Sample.feedback) <= 500 ->
          forall row k, lastWithId k Sample.feedback = Some row -> row ∈ out).
Proof.
  assert (H : Forall (fun r => nullish r = false) Sample.feedback)
    by (repeat constructor).
  split; [exact H|].
  exact (latestByDate_keeps_last_per_id RefHost.host Sample.feedback 500 H).
Defined.

(** A row without any date does not rank last when another row is dated
    before 1970: its resolved date is zero, the other one is negative. *)
Lemma latestByDate_undated_not_last :
  latestByDate RefHost.host [Sample.fbOld; Sample.fbUndated] 500
    = Ok [Sample.fbUndated; Sample.fbOld]
  /\ resolvedDate RefHost.host Sample.fbUndated = 0
  /\ resolvedDate RefHost.host Sample.fbOld = -86400000.
Proof. by vm_compute. Qed.

Lemma latestByDate_descending_witness :
  Forall (fun r => nullish r = false) [Sample.fbOld; Sample.fbUndated]
  /\ exists out,
      latestByDate RefHost.host [Sample.fbOld; Sample.fbUndated] 500 = Ok out
      /\ StronglySorted
           (fun a b => resolvedDate RefHost.host b <= resolvedDate RefHost.host a)
           out.
Proof.
  assert (H : Forall (fun r => nullish r = false)
                [Sample.fbOld; Sample.fbUndated]) by (repeat constructor).
  split; [exact H|].
  destruct (latestByDate_descending RefHost.host _ 500 H) as (out & Hout & Hs & _).
  exists out. split; [exact Hout|exact Hs].
Defined.

(* ================================================================== *)
(** ** Properties: the questions walk                                  *)
(* ================================================================== *)

Section QuestionsFacts.
Variable host : Host.
Variable http : request -> response.
Variables (token : string) (nmId : number) (limit : Z).

Abbreviation walk := (walkQuestions http).
Abbreviation page isAnswered skip :=
  (fetchQuestions http token nmId isAnswered 1000 skip "dateDesc").

(** Every page that lets the loop go on moves the offset by at least
    1000, so the pages still to come are bounded by the distance of the
    offset to 11000. *)
Lemma walkQuestions_total (fuel : nat) (isAnswered : bool) (skip : Z)
    (items : list value) :
  (1 <= fuel)%nat -> 11000 <= skip + 1000 * Z.of_nat fuel ->
  exists r, walk fuel token nmId limit isAnswered skip items = Some r.
Proof.
  revert skip items. induction fuel as [|fuel IH]; intros skip items Hpos Hfuel; [lia|].
  simpl. destruct (Z.of_nat (length items) <? limit); simpl; [|eauto].
  destruct (page isAnswered skip) as [batch|e]; [|eauto].
  destruct (Z.of_nat (length batch) =? 0); [eauto|].
  destruct (Z.ltb_spec (Z.of_nat (length batch)) 1000); [eauto|].
  destruct (Z.ltb_spec 10000 (skip + Z.of_nat (length batch))); [eauto|].
  apply IH; lia.
Qed.

Lemma walkQuestions_more_fuel (fuel fuel' : nat) (isAnswered : bool)
    (skip : Z) (items : list value) r :
  walk fuel token nmId limit isAnswered skip items = Some r ->
  (fuel <= fuel')%nat ->
  walk fuel' token nmId limit isAnswered skip items = Some r.
Proof.
  revert fuel' skip items.
  induction fuel as [|fuel IH]; intros fuel' skip items Hr Hle.
  - simpl in Hr. destruct fuel'; simpl;
      destruct (Z.of_nat (length items) <? limit); simpl in *; done.
  - destruct fuel' as [|fuel']; [lia|]. simpl in *.
    destruct (Z.of_nat (length items) <? limit); simpl in *; [|done].
    destruct (page isAnswered skip) as [batch|e]; [|done].
    destruct (Z.of_nat (length batch) =? 0); [done|].
    destruct (Z.of_nat (length batch) <? 1000); [done|].
    destruct (10000 <? skip + Z.of_nat (length batch)); [done|].
    apply IH; [done|lia].
Qed.

Lemma walkQuestions_terminates (isAnswered : bool) (items : list value) :
  exists r, forall fuel, (11 <= fuel)%nat ->
    walk fuel token nmId limit isAnswered 0 items = Some r.
Proof.
  destruct (walkQuestions_total 11 isAnswered 0 items) as [r Hr]; [lia|lia|].
  exists r. intros fuel Hfuel. by eapply walkQuestions_more_fuel.
Qed.

(** C9.  Each walk of [fetchAllQuestions] ends within 11 pages, and so
    does [fetchAllQuestions]: with any bound of at least 11 pages per
    walk the model returns one and the same outcome.  A walk stops at
    the first of: the accumulated count no longer below [limit]; a page
    shorter than the page size 1000 (its items are kept); the offset,
    advanced by the size of the page, above 10000.  Otherwise it goes on
    from the advanced offset.  A failed page request ends the walk with
    its exception. *)
Theorem fetchAllQuestions_terminates :
  (forall isAnswered items, exists r, forall fuel, (11 <= fuel)%nat ->
      walk fuel token nmId limit isAnswered 0 items = Some r)
  /\ (exists r, forall fuel, (11 <= fuel)%nat ->
        fetchAllQuestions host http fuel token nmId limit = Some r)
  /\ (forall fuel isAnswered skip items,
        ~ Z.of_nat (length items) < limit ->
        walk fuel token nmId limit isAnswered skip items = Some (Ok items))
  /\ (forall fuel isAnswered skip items batch,
        Z.of_nat (length items) < limit ->
        page isAnswered skip = Ok batch ->
        Z.of_nat (length batch) < 1000 ->
        walk (S fuel) token nmId limit isAnswered skip items
        = Some (Ok (items ++ batch)))
  /\ (forall fuel isAnswered skip items batch,
        Z.of_nat (length items) < limit ->
        page isAnswered skip = Ok batch ->
        1000 <= Z.of_nat (length batch) ->
        10000 < skip + Z.of_nat (length batch) ->
        walk (S fuel) token nmId limit isAnswered skip items
        = Some (Ok (items ++ batch)))
  /\ (forall fuel isAnswered skip items batch,
        Z.of_nat (length items) < limit ->
        page isAnswered skip = Ok batch ->
        1000 <= Z.of_nat (length batch) ->
        skip + Z.of_nat (length batch) <= 10000 ->
        walk (S fuel) token nmId limit isAnswered skip items
        = walk fuel token nmId limit isAnswered
            (skip + Z.of_nat (length batch)) (items ++ batch))
  /\ (forall fuel isAnswered skip items e,
        Z.of_nat (length items) < limit ->
        page isAnswered skip = Throw e ->
        walk (S fuel) token nmId limit isAnswered skip items = Some (Throw e)).
Proof.
  split_and!.
  - apply walkQuestions_terminates.
  - destruct (walkQuestions_terminates false []) as [r1 Hr1].
    destruct r1 as [items|e].
    + destruct (walkQuestions_terminates true items) as [r2 Hr2].
      exists (match r2 with
              | Ok items' => latestByDate host items' limit
              | Throw e => Throw e
              end).
      intros fuel Hfuel. unfold fetchAllQuestions.
      rewrite (Hr1 fuel Hfuel), (Hr2 fuel Hfuel). by destruct r2.
    + exists (Throw e). intros fuel Hfuel. unfold fetchAllQuestions.
      by rewrite (Hr1 fuel Hfuel).
  - intros fuel isAnswered skip items Hlim.
    destruct fuel; simpl; by destruct (Z.ltb_spec (Z.of_nat (length items)) limit).
  - intros fuel isAnswered skip items batch Hlim Hpage Hshort. simpl.
    destruct (Z.ltb_spec (Z.of_nat (length items)) limit); [simpl|lia].
    rewrite Hpage. destruct (Z.eqb_spec (Z.of_nat (length batch)) 0) as [H0|_].
    + destruct batch; [|simpl in H0; lia]. by rewrite app_nil_r.
    + by destruct (Z.ltb_spec (Z.of_nat (length batch)) 1000); [|lia].
  - intros fuel isAnswered skip items batch Hlim Hpage Hfull Hceil. simpl.
    destruct (Z.ltb_spec (Z.of_nat (length items)) limit); [simpl|lia].
    rewrite Hpage. destruct (Z.eqb_spec (Z.of_nat (length batch)) 0); [lia|].
    destruct (Z.ltb_spec (Z.of_nat (length batch)) 1000); [lia|].
    by destruct (Z.ltb_spec 10000 (skip + Z.of_nat (length batch))); [|lia].
  - intros fuel isAnswered skip items batch Hlim Hpage Hfull Hceil. simpl.
    destruct (Z.ltb_spec (Z.of_nat (length items)) limit); [simpl|lia].
    rewrite Hpage. destruct (Z.eqb_spec (Z.of_nat (length batch)) 0); [lia|].
    destruct (Z.ltb_spec (Z.of_nat (length batch)) 1000); [lia|].
    by destruct (Z.ltb_spec 10000 (skip + Z.of_nat (length batch))); [lia|].
  - intros fuel isAnswered skip items e Hlim Hpage. simpl.
    destruct (Z.ltb_spec (Z.of_nat (length items)) limit); [simpl|lia].
    by rewrite Hpage.
Qed.
End QuestionsFacts.

(* ================================================================== *)
(** ** Properties: catalog                                             *)
(* ================================================================== *)

Lemma elem_of_concat {A} (x : A) (ls : list (list A)) :
  x ∈ concat ls <-> exists l, x ∈ l /\ l ∈ ls.
Proof.
  rewrite list_elem_of_In, in_concat. split.
  - intros (l & Hl & Hx). exists l. by rewrite !list_elem_of_In.
  - intros (l & Hx & Hl). exists l. by rewrite <- !list_elem_of_In.
Qed.

Lemma compareCandidates_consistent : consistent compareCandidates.
Proof.
  unfold consistent, compareCandidates. split.
  - intros a b c.
    destruct (Z.eqb_spec (c_base a) (c_base b)), (Z.eqb_spec (c_base b) (c_base c)),
      (Z.eqb_spec (c_base a) (c_base c)); simpl; try lia;
    destruct (Z.eqb_spec (c_main a) (c_main b)), (Z.eqb_spec (c_main b) (c_main c)),
      (Z.eqb_spec (c_main a) (c_main c)); simpl; try lia;
    destruct (Z.eqb_spec (c_score a) (c_score b)), (Z.eqb_spec (c_score b) (c_score c)),
      (Z.eqb_spec (c_score a) (c_score c)); simpl; try lia;
    destruct (Z.eqb_spec (c_negidx a) (c_negidx b)),
      (Z.eqb_spec (c_negidx b) (c_negidx c)),
      (Z.eqb_spec (c_negidx a) (c_negidx c)); simpl; lia.
  - intros a b.
    destruct (Z.eqb_spec (c_base a) (c_base b)), (Z.eqb_spec (c_base b) (c_base a));
      simpl; try lia;
    destruct (Z.eqb_spec (c_main a) (c_main b)), (Z.eqb_spec (c_main b) (c_main a));
      simpl; try lia;
    destruct (Z.eqb_spec (c_score a) (c_score b)), (Z.eqb_spec (c_score b) (c_score a));
      simpl; try lia;
    destruct (Z.eqb_spec (c_negidx a) (c_negidx b)),
      (Z.eqb_spec (c_negidx b) (c_negidx a)); simpl; lia.
Qed.

(** What "not after" means for the comparator of the candidates. *)
Lemma compareCandidates_le (best c : candidate) :
  compareCandidates best c <= 0 ->
  c_base c < c_base best
  \/ (c_base c = c_base best
      /\ (c_main c < c_main best
          \/ (c_main c = c_main best
              /\ (c_score c < c_score best
                  \/ (c_score c = c_score best
                      /\ c_negidx c <= c_negidx best))))).
Proof.
  unfold compareCandidates.
  destruct (Z.eqb_spec (c_base best) (c_base c)); simpl; [|lia].
  destruct (Z.eqb_spec (c_main best) (c_main c)); simpl; [|lia].
  destruct (Z.eqb_spec (c_score best) (c_score c)); simpl; [|lia].
  destruct (Z.eqb_spec (c_negidx best) (c_negidx c)); simpl; lia.
Qed.

Section CatalogFacts.
Variable host : Host.

Lemma collectItem_base (baseScore : Z) (index : nat) (item : value) (c : candidate) :
  c ∈ collectItem baseScore index item -> c_base c = baseScore.
Proof.
  assert (Hobj : forall isMain,
    c ∈ omap (fun '(key, score) =>
                match startsWith_http (prop item key) with
                | Some u => Some {| c_base := baseScore; c_main := isMain;
                                    c_score := score;
                                    c_negidx := - Z.of_nat index; c_url := u |}
                | None => None
                end) keyScores -> c_base c = baseScore).
  { intros isMain (ks & _ & Hc)%list_elem_of_omap. destruct ks as [key score].
    destruct (startsWith_http (prop item key)); [|done]. by injection Hc as <-. }
  unfold collectItem. destruct item; try by intros ?%elem_of_nil.
  - destruct (String.prefix "http" s); [|by intros ?%elem_of_nil].
    by intros ->%list_elem_of_singleton.
  - apply Hobj.
Qed.

Lemma collect_base (items : value) (baseScore : Z) (c : candidate) :
  c ∈ collect items baseScore -> c_base c = baseScore.
Proof.
  unfold collect. destruct items; try by intros ?%elem_of_nil.
  intros (l & Hc & Hl)%elem_of_concat.
  apply elem_of_lookup_imap_1 in Hl as (i & item & -> & _).
  by eapply collectItem_base.
Qed.

(** An object entry with a URL under [tm] yields a candidate. *)
Lemma collect_tm (photos : list value) (i : nat) (entry : object) (u : string)
    (baseScore : Z) :
  photos !! i = Some (VObj entry) ->
  startsWith_http (prop (VObj entry) "tm") = Some u ->
  {| c_base := baseScore;
     c_main := if is_true (prop (VObj entry) "isMain") then 1 else 0;
     c_score := 45; c_negidx := - Z.of_nat i; c_url := u |}
  ∈ collect (VArr photos) baseScore.
Proof.
  intros Hi Hu. unfold collect. apply elem_of_concat.
  exists (collectItem baseScore i (VObj entry)). split.
  - unfold collectItem. apply list_elem_of_omap. exists ("tm", 45). split.
    + unfold keyScores. apply list_elem_of_In. simpl. tauto.
    + by rewrite Hu.
  - by apply elem_of_lookup_imap_2.
Qed.

(** C4.  When the [photos] array of a card holds an object entry with a
    URL under [tm], whether marked main or not, [selectPhotoUrl] returns
    the URL of a candidate taken from [photos] (with the version
    parameter [appendPhotoVersion] adds): the chosen candidate is not
    after any other in the order (collection score, main flag, key
    score, earlier index), and it is strictly before every candidate of
    [mediaFiles], also one marked [isMain: true], so the main flag only
    decides between candidates of one collection.  When [photos] yields
    no other URL than the one under [tm], that URL is the one chosen. *)
Theorem selectPhotoUrl_prefers_photos (card : value) (photos : list value)
    (i : nat) (entry : object) (u : string) :
  prop card "photos" = VArr photos ->
  photos !! i = Some (VObj entry) ->
  startsWith_http (prop (VObj entry) "tm") = Some u ->
  exists best,
    selectPhotoUrl host card = Some (appendPhotoVersion host (c_url best) card)
    /\ best ∈ collect (VArr photos) 30
    /\ (forall c, c ∈ photoCandidates card ->
          c_base c < c_base best
          \/ (c_base c = c_base best
              /\ (c_main c < c_main best
                  \/ (c_main c = c_main best
                      /\ (c_score c < c_score best
                          \/ (c_score c = c_score best
                              /\ c_negidx c <= c_negidx best))))))
    /\ (forall m, m ∈ collect (prop card "mediaFiles") 20 ->
          c_base m < c_base best /\ compareCandidates best m < 0)
    /\ ((forall c, c ∈ collect (VArr photos) 30 -> c_url c = u) ->
        selectPhotoUrl host card = Some (appendPhotoVersion host u card)).
Proof.
  intros Hphotos Hi Hu.
  pose proof (collect_tm photos i entry u 30 Hi Hu) as Hcand.
  set (cand := {| c_base := 30; c_main := _; c_score := 45;
                  c_negidx := _; c_url := u |}) in Hcand.
  assert (Hin : cand ∈ photoCandidates card).
  { unfold photoCandidates. rewrite Hphotos. apply elem_of_app. by left. }
  destruct (sort_by compareCandidates (photoCandidates card)) as [|best rest] eqn:Hsort.
  { apply (sort_by_elem_of compareCandidates) in Hin. rewrite Hsort in Hin.
    by apply elem_of_nil in Hin. }
  pose proof (sort_by_head _ _ _ _ compareCandidates_consistent Hsort) as Hhead.
  assert (Hbest : best ∈ photoCandidates card).
  { apply (sort_by_elem_of compareCandidates). rewrite Hsort. left. }
  assert (Hle : forall c, c ∈ photoCandidates card -> compareCandidates best c <= 0).
  { intros c Hc. destruct (Hhead c Hc) as [->|]; [|done].
    unfold compareCandidates. by rewrite !Z.eqb_refl. }
  assert (Hbase : c_base best = 30).
  { pose proof (compareCandidates_le _ _ (Hle cand Hin)) as Hc. simpl in Hc.
    unfold photoCandidates in Hbest.
    apply elem_of_app in Hbest as [Hb|[Hb|Hb]%elem_of_app];
      apply collect_base in Hb; lia. }
  assert (Hfrom : best ∈ collect (VArr photos) 30).
  { unfold photoCandidates in Hbest. rewrite Hphotos in Hbest.
    apply elem_of_app in Hbest as [Hb|[Hb|Hb]%elem_of_app]; [done|..];
      apply collect_base in Hb; lia. }
  exists best. unfold selectPhotoUrl. rewrite Hsort. split_and!; [done|done|..].
  - intros c Hc. by apply compareCandidates_le, Hle.
  - intros m Hm. apply collect_base in Hm. split; [lia|].
    unfold compareCandidates.
    destruct (Z.eqb_spec (c_base best) (c_base m)); simpl; lia.
  - intros Hall. by rewrite (Hall best Hfrom).
Qed.

Lemma firstCardWithId_cons (id : Z) (card : value) (cards : list value) :
  firstCardWithId host id (card :: cards)
  = if decide (cardId host card = Some id) then Some card
    else firstCardWithId host id cards.
Proof. unfold firstCardWithId. rewrite filter_cons. by case_decide. Qed.

(** The loop of [normalizeProducts], from any point of it: what it adds
    to [products] is one product per identifier not yet in [seen], built
    from the first card that carries it. *)
Lemma scanCards_spec (cards : list value) (seen : gset Z)
    (products out : list Product) :
  scanCards host cards seen products = Ok out ->
  exists new,
    out = products ++ new
    /\ (length new <= length cards)%nat
    /\ NoDup (map nm_id new)
    /\ (forall p, p ∈ new ->
          (nm_id p ∉ seen)
          /\ (exists card, firstCardWithId host (nm_id p) cards = Some card
                           /\ p = makeProduct host (nm_id p) card))
    /\ (forall id card, id ∉ seen ->
          firstCardWithId host id cards = Some card ->
          makeProduct host id card ∈ new).
Proof.
  revert seen products. induction cards as [|card cards IH]; intros seen products; simpl.
  - intros [= <-]. exists []. rewrite app_nil_r.
    split_and!; [done|done|constructor|by intros ? ?%elem_of_nil|done].
  - destruct (nullish card); [done|].
    destruct (cardId host card) as [nmId|] eqn:Hid.
    + case_decide as Hseen.
      * intros (new & -> & Hlen & Hnd & Hfrom & Hall)%IH. exists new.
        split_and!; [done|lia|done|..].
        -- intros p Hp. destruct (Hfrom p Hp) as (Hns & c & Hc & Hpc).
           split; [done|]. exists c. split; [|done].
           rewrite firstCardWithId_cons, decide_False; [done|].
           rewrite Hid. intros [= ->]. done.
        -- intros id c Hns Hc. apply Hall; [done|].
           rewrite firstCardWithId_cons, decide_False in Hc; [done|].
           rewrite Hid. intros [= ->]. done.
      * intros (new & -> & Hlen & Hnd & Hfrom & Hall)%IH.
        exists (makeProduct host nmId card :: new).
        split_and!; [by rewrite <- app_assoc|simpl; lia|..].
        -- simpl. constructor; [|done]. intros Hin.
           apply list_elem_of_fmap in Hin as (p & Hp & Hin).
           destruct (Hfrom p Hin) as (Hns & _). apply Hns. rewrite <- Hp.
           apply elem_of_union. left. by apply elem_of_singleton.
        -- intros p [->|Hp]%elem_of_cons.
           ++ simpl. split; [done|]. exists card. split; [|done].
              by rewrite firstCardWithId_cons, decide_True.
           ++ destruct (Hfrom p Hp) as (Hns & c & Hc & Hpc).
              split; [by intros ?; apply Hns, elem_of_union; right|].
              exists c. split; [|done].
              rewrite firstCardWithId_cons, decide_False; [done|].
              rewrite Hid. intros [= ->]. apply Hns, elem_of_union. left.
              by apply elem_of_singleton.
        -- intros id c Hns Hc. rewrite firstCardWithId_cons in Hc.
           case_decide as Heq.
           ++ rewrite Hid in Heq. injection Heq as ->. injection Hc as ->. left.
           ++ right. apply Hall; [|done]. rewrite Hid in Heq.
              intros [->%elem_of_singleton|?]%elem_of_union; done.
    + intros (new & -> & Hlen & Hnd & Hfrom & Hall)%IH. exists new.
      split_and!; [done|lia|done|..].
      * intros p Hp. destruct (Hfrom p Hp) as (Hns & c & Hc & Hpc).
        split; [done|]. exists c. split; [|done].
        rewrite firstCardWithId_cons, decide_False; [done|]. by rewrite Hid.
      * intros id c Hns Hc. apply Hall; [done|].
        rewrite firstCardWithId_cons, decide_False in Hc; [done|]. by rewrite Hid.
Qed.

Lemma scanCards_total (cards : list value) (seen : gset Z) (products : list Product) :
  Forall (fun c => nullish c = false) cards ->
  exists out, scanCards host cards seen products = Ok out.
Proof.
  intros Hcards. revert seen products.
  induction Hcards as [|card cards Hcard _ IH]; intros seen products; simpl; [eauto|].
  rewrite Hcard. destruct (cardId host card); [|done]. by case_decide.
Qed.

(** Cards without a finite identifier leave no trace in the loop. *)
Lemma scanCards_finite_only (cards : list value) (seen : gset Z)
    (products : list Product) :
  Forall (fun c => nullish c = false) cards ->
  scanCards host (filter (fun c => is_Some (cardId host c)) cards) seen products
  = scanCards host cards seen products.
Proof.
  intros Hcards. revert seen products.
  induction Hcards as [|card cards Hcard _ IH]; intros seen products; [done|].
  rewrite filter_cons. simpl. rewrite Hcard.
  destruct (cardId host card) as [nmId|] eqn:Hid.
  - rewrite decide_True by done. simpl. rewrite Hcard, Hid.
    case_decide; apply IH.
  - rewrite decide_False by (by intros [? ?]). apply IH.
Qed.

Lemma normalizeProducts_spec (cards : list value) (out : list Product) :
  normalizeProducts host cards = Ok out ->
  (length out <= length cards)%nat
  /\ NoDup (map nm_id out)
  /\ (forall p, p ∈ out ->
        exists card, firstCardWithId host (nm_id p) cards = Some card
                     /\ p = makeProduct host (nm_id p) card)
  /\ (forall id card, firstCardWithId host id cards = Some card ->
        makeProduct host id card ∈ out).
Proof.
  unfold normalizeProducts. intros (ps & Hscan & [= <-])%bind_Ok.
  apply scanCards_spec in Hscan as (new & -> & Hlen & Hnd & Hfrom & Hall).
  simpl. pose proof (sort_by_Permutation (compareProducts host) new) as Hperm.
  split_and!.
  - by rewrite sort_by_length.
  - by rewrite Hperm.
  - intros p Hp. apply sort_by_elem_of in Hp. by destruct (Hfrom p Hp) as (_ & ?).
  - intros id card Hc. apply sort_by_elem_of. by apply Hall.
Qed.

(** C6.  On cards none of which is [null], [normalizeProducts] returns;
    its products have pairwise distinct identifiers; each product is built
    from the first card, in input order, whose identifier (the number
    read from [nmID], or from [nmId] when [nmID] is null or missing) is
    the product's; every identifier carried by a card has its product;
    and the cards whose identifier is not a finite number can be removed
    from the input without changing the output. *)
Theorem normalizeProducts_first_card_per_id (cards : list value) :
  Forall (fun c => nullish c = false) cards ->
  exists products,
    normalizeProducts host cards = Ok products
    /\ NoDup (map nm_id products)
    /\ (forall p, p ∈ products ->
          exists card, firstCardWithId host (nm_id p) cards = Some card
                       /\ p = makeProduct host (nm_id p) card)
    /\ (forall id card, firstCardWithId host id cards = Some card ->
          makeProduct host id card ∈ products)
    /\ (forall card,
          cardId host card
          = isFinite (ToNumber host
                        (if nullish (prop card "nmID") then prop card "nmId"
                         else prop card "nmID")))
    /\ normalizeProducts host
         (filter (fun c => is_Some (cardId host c)) cards) = Ok products.
Proof.
  intros Hcards.
  destruct (scanCards_total cards ∅ [] Hcards) as [ps Hps].
  assert (Hnorm : normalizeProducts host cards
                  = Ok (sort_by (compareProducts host) ps)).
  { unfold normalizeProducts. by rewrite Hps. }
  exists (sort_by (compareProducts host) ps).
  destruct (normalizeProducts_spec _ _ Hnorm) as (_ & Hnd & Hfrom & Hall).
  split_and!; [done|done|done|done|done|].
  unfold normalizeProducts. by rewrite scanCards_finite_only, Hps.
Qed.

Variable http : request -> response.

(** C2, as amended.  When the page loop ends with the accumulated cards
    [cards], [fetchProductCards] returns [normalizeProducts] of
    [cards.slice(0, maxItems)]: the accumulated cards are cut to
    [maxItems] first and normalised afterwards, so the products are built
    from the first [maxItems] cards only and are at most [maxItems]. *)
Theorem fetchProductCards_slices_then_normalizes (fuel : nat)
    (token : string) (pageSize maxItems : Z) (cards : list value) :
  walkCards host http fuel token pageSize maxItems None [] = Some (Ok cards) ->
  fetchProductCards host http fuel token pageSize maxItems
  = Some (normalizeProducts host (slice0 maxItems cards))
  /\ (0 <= maxItems ->
      slice0 maxItems cards = take (Z.to_nat maxItems) cards)
  /\ (forall products,
        0 <= maxItems ->
        normalizeProducts host (slice0 maxItems cards) = Ok products ->
        Z.of_nat (length products) <= maxItems
        /\ forall p, p ∈ products ->
             exists card, card ∈ take (Z.to_nat maxItems) cards
                          /\ p = makeProduct host (nm_id p) card).
Proof.
  intros Hwalk. unfold fetchProductCards, finishProductCards. rewrite Hwalk.
  split_and!; [done|apply slice0_take|].
  intros products Hmax Hnorm.
  apply normalizeProducts_spec in Hnorm as (Hlen & _ & Hfrom & _).
  pose proof (slice0_length maxItems cards Hmax). split; [lia|].
  intros p Hp. destruct (Hfrom p Hp) as (card & Hfirst & ->).
  exists card. split; [|done]. rewrite <- slice0_take by done.
  apply head_Some_elem_of in Hfirst. by apply list_elem_of_filter in Hfirst as [_ ?].
Qed.
End CatalogFacts.

(** With the catalog of the example and [maxItems] 2, [fetchProductCards]
    cuts the three accumulated cards to the first two, which share one
    identifier, and returns one product; normalising all three cards and
    cutting afterwards would give two. *)
Lemma fetchProductCards_normalize_then_cut_refuted :
  walkCards RefHost.host Sample.onePage 5 "token" 100 2 None []
    = Some (Ok [Sample.cardA; Sample.cardA'; Sample.cardB])
  /\ fetchProductCards RefHost.host Sample.onePage 5 "token" 100 2
    = Some (Ok [Sample.productA])
  /\ (take 2 <$> normalizeProducts RefHost.host
                   [Sample.cardA; Sample.cardA'; Sample.cardB])
    = Ok [Sample.productA; Sample.productB].
Proof. by vm_compute. Qed.

Lemma fetchProductCards_slices_then_normalizes_witness :
  fetchProductCards RefHost.host Sample.onePage 5 "token" 100 2
  = Some (normalizeProducts RefHost.host
            (slice0 2 [Sample.cardA; Sample.cardA'; Sample.cardB])).
Proof.
  exact (proj1 (fetchProductCards_slices_then_normalizes RefHost.host
                  Sample.onePage 5 "token" 100 2
                  [Sample.cardA; Sample.cardA'; Sample.cardB] eq_refl)).
Defined.

Lemma normalizeProducts_first_card_per_id_witness :
  Forall (fun c => nullish c = false)
    [Sample.cardA; Sample.cardA'; Sample.cardB]
  /\ exists products,
      normalizeProducts RefHost.host
        [Sample.cardA; Sample.cardA'; Sample.cardB] = Ok products
      /\ NoDup (map nm_id products).
Proof.
  assert (H : Forall (fun c => nullish c = false)
                [Sample.cardA; Sample.cardA'; Sample.cardB])
    by (repeat constructor).
  split; [exact H|].
  destruct (normalizeProducts_first_card_per_id RefHost.host _ H)
    as (products & Hp & Hnd & _).
  exists products. split; [exact Hp|exact Hnd].
Defined.

Lemma selectPhotoUrl_prefers_photos_witness :
  selectPhotoUrl RefHost.host Sample.cardPhotos = Some "https://img/p-tm.webp".
Proof.
  destruct (selectPhotoUrl_prefers_photos RefHost.host Sample.cardPhotos
              [VObj [("tm", VStr "https://img/p-tm.webp")]] 0
              [("tm", VStr "https://img/p-tm.webp")] "https://img/p-tm.webp"
              eq_refl eq_refl eq_refl) as (best & _ & _ & _ & _ & Hurl).
  rewrite Hurl; [reflexivity|].
  intros c Hc. vm_compute in Hc. apply list_elem_of_singleton in Hc. by subst c.
Defined.

(* ================================================================== *)
(** ** Properties: storage                                             *)
(* ================================================================== *)

Section StorageClaims.
Context {remote : Type}.
Variable kv_http : remote -> command -> response * remote.

(** C7.  With the remote backend configured, a failing [SET] makes
    [setValue] write the value to [memoryStore] and return [false]; with
    no remote backend, [setValue] returns [true], touches the memory map
    only, and [getValue] on the same key then returns the value (any
    value other than [null] and [undefined], so also a string); and
    [setValue] returns a boolean, it never throws. *)
Theorem setValue_degrades_to_memory (st : store remote) (key : string) (v : value) :
  (hasKV st = true ->
   forall e st', kvCommand kv_http (SET key v) st = (Throw e, st') ->
     setValue kv_http key v st = (Ok false, with_memory <[key := v]> st')
     /\ memoryStore (setValue kv_http key v st).2 !! key = Some v)
  /\ (hasKV st = false ->
      setValue kv_http key v st = (Ok true, with_memory <[key := v]> st)
      /\ (nullish v = false ->
          (getValue kv_http key (setValue kv_http key v st).2).1 = Ok v))
  /\ (exists b, (setValue kv_http key v st).1 = Ok b).
Proof.
  split_and!.
  - intros Hkv e st' Hset. unfold setValue. rewrite Hkv, Hset. simpl.
    split; [done|]. apply lookup_insert_eq.
  - intros Hkv. unfold setValue. rewrite Hkv. simpl. split; [done|].
    intros Hv. unfold getValue. simpl. rewrite Hkv. simpl.
    unfold memory_get. simpl. rewrite lookup_insert_eq. simpl.
    unfold coalesce. by rewrite Hv.
  - unfold setValue. destruct (hasKV st); simpl; [|eauto].
    destruct (kvCommand kv_http (SET key v) st) as [[?|?] ?]; simpl; eauto.
Qed.
End StorageClaims.

Lemma setValue_degrades_to_memory_witness :
  setValue Sample.unreachable "k" (VStr "v") Sample.degradedStore
    = (Ok false, with_memory <["k" := VStr "v"]> Sample.degradedStore)
  /\ (setValue Sample.unreachable "k" (VStr "v") Sample.localStore).1 = Ok true
  /\ (getValue Sample.unreachable "k"
        (setValue Sample.unreachable "k" (VStr "v") Sample.localStore).2).1
     = Ok (VStr "v").
Proof.
  destruct (setValue_degrades_to_memory Sample.unreachable
              Sample.degradedStore "k" (VStr "v")) as (Hdown & _ & _).
  destruct (setValue_degrades_to_memory Sample.unreachable
              Sample.localStore "k" (VStr "v")) as (_ & Hlocal & _).
  destruct (Hdown eq_refl "fetch failed" Sample.degradedStore eq_refl) as [Hd _].
  destruct (Hlocal eq_refl) as [Hset Hget].
  split; [exact Hd|]. split; [by rewrite Hset|]. exact (Hget eq_refl).
Defined.

(* ================================================================== *)
(** ** Properties: CSV                                                 *)
(* ================================================================== *)

Lemma ascii_compare_Lt_trans (a b c : ascii) :
  Ascii.compare a b = Lt -> Ascii.compare b c = Lt -> Ascii.compare a c = Lt.
Proof. unfold Ascii.compare. rewrite !N.compare_lt_iff. lia. Qed.

Lemma string_compare_Lt_trans (a b c : string) :
  String.compare a b = Lt -> String.compare b c = Lt -> String.compare a c = Lt.
Proof.
  revert b c. induction a as [|x a IH]; intros [|y b] [|z c]; simpl; try done.
  destruct (Ascii.compare x y) eqn:Hxy;
    destruct (Ascii.compare y z) eqn:Hyz; try done.
  - apply Ascii.compare_eq_iff in Hxy as ->, Hyz as ->.
    replace (Ascii.compare z z) with Eq; [apply IH|].
    symmetry. unfold Ascii.compare. apply N.compare_refl.
  - apply Ascii.compare_eq_iff in Hxy as ->. by rewrite Hyz.
  - apply Ascii.compare_eq_iff in Hyz as <-. by rewrite Hxy.
  - by rewrite (ascii_compare_Lt_trans x y z).
Qed.

Lemma compareStrings_le (a b : string) :
  compareStrings a b <= 0 <-> a = b \/ String.compare a b = Lt.
Proof.
  unfold compareStrings. destruct (String.compare a b) eqn:H.
  - apply String.compare_eq_iff in H. split; [by left|lia].
  - split; [by right|lia].
  - split; [lia|]. intros [->|?]; [|done].
    replace (String.compare b b) with Eq in H; [done|].
    symmetry. clear. induction b as [|x b IH]; simpl; [done|].
    unfold Ascii.compare. by rewrite N.compare_refl.
Qed.

Lemma compareStrings_consistent : consistent compareStrings.
Proof.
  split.
  - intros a b c. rewrite !compareStrings_le.
    intros [->|Hab] [->|Hbc]; auto. right. by eapply string_compare_Lt_trans.
  - intros a b Hab. apply compareStrings_le. right.
    unfold compareStrings in Hab. rewrite String.compare_antisym.
    by destruct (String.compare a b).
Qed.

(** Sorting strings without duplicates gives a strictly ascending list. *)
Lemma sort_strings_ascending (l : list string) :
  NoDup l ->
  StronglySorted (fun a b => String.compare a b = Lt) (sort_by compareStrings l).
Proof.
  intros Hnd. rewrite <- (sort_by_Permutation compareStrings l) in Hnd.
  pose proof (sort_by_sorted compareStrings l compareStrings_consistent) as Hs.
  induction Hs as [|x s _ IH Hx]; [constructor|].
  apply NoDup_cons in Hnd as [Hx' Hnd]. constructor; [auto|].
  rewrite Forall_forall in Hx |- *. intros y Hy.
  destruct (proj1 (compareStrings_le x y) (Hx y Hy)) as [->|]; done.
Qed.

Section CsvClaims.
Variable host : Host.

Lemma set_add_spec (key : string) (set : list string) :
  (NoDup set -> NoDup (set_add key set))
  /\ forall k, k ∈ set_add key set <-> k = key \/ k ∈ set.
Proof.
  unfold set_add. case_bool_decide as Hin; split; [done| |..].
  - intros k. split; [by right|]. by intros [->|?].
  - intros Hnd. apply NoDup_app. split_and!; [done| |apply NoDup_singleton].
    by intros x Hx ->%list_elem_of_singleton.
  - intros k. rewrite elem_of_app, list_elem_of_singleton. tauto.
Qed.

Lemma union_keys_spec (flattened : list object) (set : list string) :
  let all := fold_left
               (fun set row => fold_left (fun set key => set_add key set) (keys row) set)
               flattened set in
  (NoDup set -> NoDup all)
  /\ forall k, k ∈ all <-> k ∈ set \/ exists row, row ∈ flattened /\ k ∈ keys row.
Proof.
  assert (Hrow : forall ks set0,
    let all := fold_left (fun set key => set_add key set) ks set0 in
    (NoDup set0 -> NoDup all) /\ forall k, k ∈ all <-> k ∈ set0 \/ k ∈ ks).
  { induction ks as [|key ks IH]; intros set0; simpl.
    - split; [done|]. intros k. split; [by left|]. by intros [?|?%elem_of_nil].
    - destruct (IH (set_add key set0)) as [Hnd Hin].
      destruct (set_add_spec key set0) as [Hnd0 Hin0]. split; [auto|].
      intros k. rewrite Hin, Hin0, elem_of_cons. tauto. }
  revert set. induction flattened as [|row flattened IH]; intros set; simpl.
  - split; [done|]. intros k. split; [by left|].
    by intros [?|(? & ?%elem_of_nil & _)].
  - destruct (IH (fold_left (fun set key => set_add key set) (keys row) set))
      as [Hnd Hin].
    destruct (Hrow (keys row) set) as [Hnd0 Hin0]. split; [auto|].
    intros k. rewrite Hin, Hin0. split.
    + intros [[?|?]|(r & ? & ?)]; [by left|right..].
      * exists row. split; [left|done].
      * exists r. split; [by right|done].
    + intros [?|(r & [->|?]%elem_of_cons & ?)]; [by left; left|by left; right|].
      right. by exists r.
Qed.

Lemma headersOf_spec (flattened : list object) :
  StronglySorted (fun a b => String.compare a b = Lt) (headersOf flattened)
  /\ forall key, key ∈ headersOf flattened
                 <-> exists row, row ∈ flattened /\ key ∈ keys row.
Proof.
  unfold headersOf. destruct (union_keys_spec flattened []) as [Hnd Hin].
  split.
  - apply sort_strings_ascending, Hnd. constructor.
  - intros key. rewrite sort_by_elem_of, Hin. split; [|by right].
    by intros [?%elem_of_nil|?].
Qed.

End CsvClaims.

(* ================================================================== *)
(** ** Properties: initData verification                               *)
(* ================================================================== *)

(** The model of SHA-256 and HMAC on the test vectors of FIPS 180-4 and
    RFC 4231. *)
Example sha256_abc :
  Sha256.hex (Sha256.sha256 (Sha256.bytes_of_string "abc"))
  = "ba7816bf8f01cfea414140de5dae2223b00361a396177a9cb410ff61f20015ad".
Proof. by vm_compute. Qed.

Example hmac_sha256_rfc4231_2 :
  Sha256.hex (Sha256.hmac (Sha256.bytes_of_string "Jefe")
                (Sha256.bytes_of_string "what do ya want for nothing?"))
  = "5bdcc146bf60754e6a042426089575c75a003f089d2739839dec58b964ec3843".
Proof. by vm_compute. Qed.



Section TelegramClaims.
Variable host : Host.


End TelegramClaims.



(* ================================================================== *)
(** ** Further properties: latestByDate                                *)
(* ================================================================== *)

Section FeedbackMore.
Variable host : Host.

(** Inserting a row leaves the rows of any given resolved date in their
    order, the new row first among those of its own date. *)
Lemma insert_by_same_date (x : value) (l : list value) (d : Z) :
  filter (fun r => resolvedDate host r = d) (insert_by (dateDesc host) x l)
  = filter (fun r => resolvedDate host r = d) (x :: l).
Proof.
  induction l as [|y l IH]; simpl; [done|].
  destruct (Z.leb_spec (dateDesc host x y) 0) as [Hle|Hgt]; [done|].
  unfold dateDesc in Hgt. rewrite filter_cons, IH, !filter_cons.
  repeat case_decide; try done; lia.
Qed.

Lemma sort_by_same_date (l : list value) (d : Z) :
  filter (fun r => resolvedDate host r = d) (sort_by (dateDesc host) l)
  = filter (fun r => resolvedDate host r = d) l.
Proof.
  induction l as [|x l IH]; simpl; [done|].
  by rewrite insert_by_same_date, !filter_cons, IH.
Qed.

Lemma values_idMap_keyed (rows : list value) :
  Forall (fun r => exists k, idKey r = Some k) (values (idMap rows [])).
Proof.
  pose proof (proj2 (idMap_keyed rows []) (Forall_nil_2 _)) as H.
  unfold values. rewrite Forall_fmap. eapply Forall_impl; [exact H|].
  intros [k r] Hk. simpl in *. eauto.
Qed.

(** X1.  The size of the output: all merged rows for [limit] 0, at most
    [limit] of them for a positive [limit], and all but the last
    [-limit] for a negative one; the merged rows are never more than the
    input rows. *)
Theorem latestByDate_size (rows : list value) (limit : Z) :
  Forall (fun r => nullish r = false) rows ->
  exists out,
    latestByDate host rows limit = Ok out
    /\ (length (mergedRows rows) <= length rows)%nat
    /\ Z.of_nat (length out)
       = if limit =? 0 then Z.of_nat (length (mergedRows rows))
         else if limit <? 0
              then Z.max (Z.of_nat (length (mergedRows rows)) + limit) 0
              else Z.min limit (Z.of_nat (length (mergedRows rows))).
Proof.
  intros Hrows. eexists. split; [by apply latestByDate_rows|].
  split; [apply mergedRows_length|].
  destruct (Z.eqb_spec limit 0); [by rewrite sort_by_length|].
  unfold slice0. destruct (Z.ltb_spec limit 0);
    rewrite length_take, sort_by_length; lia.
Qed.

(** X2.  Without a cut, the rows that carry no id are all kept, as often as
    they occur in the input, and every row of the output is a row of the
    input. *)
Theorem latestByDate_keeps_rows_without_id (rows : list value) (limit : Z) :
  Forall (fun r => nullish r = false) rows ->
  exists out,
    latestByDate host rows limit = Ok out
    /\ (forall row, row ∈ out -> row ∈ rows)
    /\ (limit = 0 \/ Z.of_nat (length rows) <= limit ->
        filter (fun r => idKey r = None) out
        ≡ₚ filter (fun r => idKey r = None) rows).
Proof.
  intros Hrows. eexists. split; [by apply latestByDate_rows|]. split.
  - intros row Hrow. apply mergedRows_elem_of.
    apply (sort_by_elem_of (dateDesc host)).
    eapply elem_of_sublist; [exact Hrow|apply latestByDate_sublist].
  - intros Hlimit.
    assert (Hall : (if limit =? 0 then sort_by (dateDesc host) (mergedRows rows)
                    else slice0 limit (sort_by (dateDesc host) (mergedRows rows)))
                   = sort_by (dateDesc host) (mergedRows rows)).
    { destruct (Z.eqb_spec limit 0); [done|]. apply slice0_all.
      rewrite sort_by_length. pose proof (mergedRows_length rows). lia. }
    rewrite Hall, (sort_by_Permutation (dateDesc host) (mergedRows rows)).
    rewrite mergedRows_eq, filter_app.
    replace (filter (fun r => idKey r = None) (values (idMap rows []))) with (@nil value).
    + simpl. clear. induction rows as [|r rows IH]; [done|].
      rewrite filter_cons. case_decide as Hr; [|done].
      rewrite filter_cons, decide_True by done. by constructor.
    + symmetry. pose proof (values_idMap_keyed rows) as Hkeyed.
      induction Hkeyed as [|r l [k Hk] _ IH]; [done|].
      rewrite filter_cons, decide_False by congruence. exact IH.
Qed.

(** X3.  Ties are left in merge order: without a cut, the rows of the output
    that share a resolved date are, in this order, the rows kept for an
    id (in the order in which the ids first occur) and then the rows
    without id (in input order). *)
Theorem latestByDate_stable (rows : list value) (limit : Z) (d : Z) :
  Forall (fun r => nullish r = false) rows ->
  limit = 0 \/ Z.of_nat (length rows) <= limit ->
  exists out,
    latestByDate host rows limit = Ok out
    /\ filter (fun r => resolvedDate host r = d) out
       = filter (fun r => resolvedDate host r = d) (values (idMap rows []))
         ++ filter (fun r => resolvedDate host r = d)
              (filter (fun r => idKey r = None) rows).
Proof.
  intros Hrows Hlimit. eexists. split; [by apply latestByDate_rows|].
  assert (Hall : (if limit =? 0 then sort_by (dateDesc host) (mergedRows rows)
                  else slice0 limit (sort_by (dateDesc host) (mergedRows rows)))
                 = sort_by (dateDesc host) (mergedRows rows)).
  { destruct (Z.eqb_spec limit 0); [done|]. apply slice0_all.
    rewrite sort_by_length. pose proof (mergedRows_length rows). lia. }
  by rewrite Hall, sort_by_same_date, mergedRows_eq, filter_app.
Qed.
End FeedbackMore.

Lemma latestByDate_size_witness :
  exists out,
    latestByDate RefHost.host Sample.feedback 1 = Ok out
    /\ Z.of_nat (length out) = 1.
Proof.
  assert (H : Forall (fun r => nullish r = false) Sample.feedback)
    by (repeat constructor).
  destruct (latestByDate_size RefHost.host Sample.feedback 1 H)
    as (out & Hout & _ & Hlen).
  exists out. split; [exact Hout|]. rewrite Hlen. reflexivity.
Defined.

Lemma latestByDate_keeps_rows_without_id_witness :
  exists out,
    latestByDate RefHost.host [Sample.fbOld; Sample.fb1; Sample.fbUndated] 0
    = Ok out
    /\ filter (fun r => idKey r = None) out
       ≡ₚ [Sample.fbOld; Sample.fbUndated].
Proof.
  assert (H : Forall (fun r => nullish r = false)
                [Sample.fbOld; Sample.fb1; Sample.fbUndated])
    by (repeat constructor).
  destruct (latestByDate_keeps_rows_without_id RefHost.host _ 0 H)
    as (out & Hout & _ & Hkeep).
  exists out. split; [exact Hout|]. exact (Hkeep (or_introl eq_refl)).
Defined.

Lemma latestByDate_stable_witness :
  exists out,
    latestByDate RefHost.host
      [Sample.fbUndated; Sample.fb1; VObj [("id", Sample.num 9)]] 0 = Ok out
    /\ filter (fun r => resolvedDate RefHost.host r = 0) out
       = [VObj [("id", Sample.num 9)]; Sample.fbUndated].
Proof.
  assert (H : Forall (fun r => nullish r = false)
                [Sample.fbUndated; Sample.fb1; VObj [("id", Sample.num 9)]])
    by (repeat constructor).
  destruct (latestByDate_stable RefHost.host _ 0 0 H (or_introl eq_refl))
    as (out & Hout & Hsame).
  exists out. split; [exact Hout|]. rewrite Hsame. reflexivity.
Defined.

(* ================================================================== *)
(** ** Further properties: the page walks                              *)
(* ================================================================== *)

Section WalkMore.
Variable host : Host.
Variables (token : string) (nmId : number).

Lemma walkQuestions_done (http : request -> response) (fuel : nat)
    (limit : Z) (isAnswered : bool) (skip : Z) (items : list value) :
  limit <= Z.of_nat (length items) ->
  walkQuestions http fuel token nmId limit isAnswered skip items = Some (Ok items).
Proof.
  intros Hlimit. destruct fuel; cbn [walkQuestions];
    by destruct (Z.ltb_spec (Z.of_nat (length items)) limit); [lia|].
Qed.

(** X4.  With a [limit] of zero or less no page is requested and the result is
    the empty array, whatever the seller API would answer. *)
Theorem fetchAllQuestions_nonpositive_limit (http : request -> response)
    (fuel : nat) (limit : Z) :
  limit <= 0 ->
  fetchAllQuestions host http fuel token nmId limit = Some (Ok []).
Proof.
  intros Hlimit. unfold fetchAllQuestions.
  rewrite !walkQuestions_done by (simpl; lia).
  unfold latestByDate. simpl.
  by destruct (limit =? 0); [|destruct limit].
Qed.

(** A walk only looks at the pages of its own partition. *)
Lemma walkQuestions_partition (http1 http2 : request -> response)
    (fuel : nat) (limit : Z) (isAnswered : bool) (skip : Z) (items : list value) :
  (forall take skip' order nm,
     http1 (FeedbackList Questions token isAnswered take skip' order nm)
     = http2 (FeedbackList Questions token isAnswered take skip' order nm)) ->
  walkQuestions http1 fuel token nmId limit isAnswered skip items
  = walkQuestions http2 fuel token nmId limit isAnswered skip items.
Proof.
  intros Hsame. revert skip items.
  induction fuel as [|fuel IH]; intros skip items; simpl; [done|].
  destruct (Z.of_nat (length items) <? limit); simpl; [|done].
  unfold fetchQuestions, fetchJson. rewrite Hsame.
  destruct (_ ≫= _) as [batch|e]; [|done].
  destruct (Z.of_nat (length batch) =? 0); [done|].
  destruct (Z.of_nat (length batch) <? 1000); [done|].
  destruct (10000 <? skip + Z.of_nat (length batch)); [done|]. apply IH.
Qed.

(** X5.  When the unanswered questions alone reach [limit], the answered ones
    are not fetched: the result is [latestByDate] of the unanswered items,
    and it is the same for any two seller APIs that agree on the
    unanswered pages. *)
Theorem fetchAllQuestions_skips_answered (http1 http2 : request -> response)
    (fuel : nat) (limit : Z) (items : list value) :
  walkQuestions http1 fuel token nmId limit false 0 [] = Some (Ok items) ->
  limit <= Z.of_nat (length items) ->
  (forall take skip order nm,
     http1 (FeedbackList Questions token false take skip order nm)
     = http2 (FeedbackList Questions token false take skip order nm)) ->
  fetchAllQuestions host http1 fuel token nmId limit
  = Some (latestByDate host items limit)
  /\ fetchAllQuestions host http2 fuel token nmId limit
     = Some (latestByDate host items limit).
Proof.
  intros Hwalk Hlimit Hsame.
  unfold fetchAllQuestions.
  rewrite <- (walkQuestions_partition http1 http2) by done.
  by rewrite Hwalk, !walkQuestions_done.
Qed.


Lemma walkCards_total (http : request -> response) (fuel : nat)
    (pageSize maxItems : Z) (cursor : option (string * number))
    (cards : list value) :
  0 < pageSize -> 0 < maxItems -> (1 <= fuel)%nat ->
  maxItems <= Z.of_nat (length cards) + Z.min pageSize 100 * Z.of_nat fuel ->
  exists r, walkCards host http fuel token pageSize maxItems cursor cards = Some r.
Proof.
  intros Hpage Hmax. revert cursor cards.
  induction fuel as [|fuel IH]; intros cursor cards Hfuel Hbound; [lia|].
  cbn [walkCards]. cbv zeta.
  destruct (fetchJson http _) as [payload|e]; [|eauto].
  destruct (nullish payload); [eauto|].
  set (batch := match prop payload "cards" with VArr l => l | _ => [] end).
  rewrite length_app.
  destruct (Z.eqb_spec maxItems 0); [lia|]. cbn [negb andb].
  destruct (Z.leb_spec maxItems (Z.of_nat (length cards + length batch))); [eauto|].
  destruct (Z.ltb_spec (Z.of_nat (length batch)) (Z.min pageSize 100)); [eauto|].
  destruct (_ || _); [eauto|].
  destruct (negb _); [eauto|].
  apply IH; rewrite ?length_app; nia.
Qed.

Lemma walkCards_more_fuel (http : request -> response) (fuel fuel' : nat)
    (pageSize maxItems : Z) (cursor : option (string * number))
    (cards : list value) r :
  walkCards host http fuel token pageSize maxItems cursor cards = Some r ->
  (fuel <= fuel')%nat ->
  walkCards host http fuel' token pageSize maxItems cursor cards = Some r.
Proof.
  revert fuel' cursor cards.
  induction fuel as [|fuel IH]; intros fuel' cursor cards Hr Hle; [done|].
  destruct fuel' as [|fuel']; [lia|].
  cbn [walkCards] in *. cbv zeta in *.
  destruct (fetchJson http _) as [payload|e]; [|done].
  destruct (nullish payload); [done|].
  destruct (_ && _); [done|].
  destruct (_ <? _); [done|].
  destruct (_ || _); [done|].
  destruct (negb _); [done|].
  apply IH; [done|lia].
Qed.

(** X7.  With a positive page size and a positive cap the page loop ends:
    every page that lets it go on adds at least min(pageSize, 100) cards,
    so [fuel] pages are enough as soon as they can hold [maxItems] cards,
    and more fuel does not change the outcome. *)
Theorem fetchProductCards_terminates (http : request -> response) (fuel : nat)
    (pageSize maxItems : Z) :
  0 < pageSize -> 0 < maxItems ->
  maxItems <= Z.min pageSize 100 * Z.of_nat fuel ->
  exists r, forall fuel', (fuel <= fuel')%nat ->
    fetchProductCards host http fuel' token pageSize maxItems = Some r.
Proof.
  intros Hpage Hmax Hfuel.
  destruct (walkCards_total http fuel pageSize maxItems None [] Hpage Hmax)
    as [r Hr]; [nia|simpl; lia|].
  exists (match r with
          | Ok cards => finishProductCards host cards maxItems
          | Throw e => Throw e
          end).
  intros fuel' Hle. unfold fetchProductCards.
  rewrite (walkCards_more_fuel _ _ _ _ _ _ _ _ Hr Hle). by destruct r.
Qed.
End WalkMore.

Lemma fetchAllQuestions_nonpositive_limit_witness :
  fetchAllQuestions RefHost.host Sample.unansweredOnly 0 "token" (Fin 7) (-3)
  = Some (Ok []).
Proof.
  apply (fetchAllQuestions_nonpositive_limit RefHost.host "token" (Fin 7)
           Sample.unansweredOnly 0 (-3)). lia.
Defined.

Lemma fetchAllQuestions_skips_answered_witness :
  fetchAllQuestions RefHost.host Sample.unansweredOnly 3 "token" (Fin 7) 1
  = Some (Ok [Sample.question]).
Proof.
  destruct (fetchAllQuestions_skips_answered RefHost.host "token" (Fin 7)
              Sample.unansweredOnly Sample.unansweredOnly 3 1 [Sample.question])
    as [H _]; [reflexivity|simpl; lia|reflexivity|].
  rewrite H. reflexivity.
Defined.


Lemma fetchProductCards_terminates_witness :
  exists r, forall fuel', (20 <= fuel')%nat ->
    fetchProductCards RefHost.host Sample.onePage fuel' "token" 100 2000 = Some r.
Proof.
  apply (fetchProductCards_terminates RefHost.host "token" Sample.onePage 20
           100 2000); simpl; lia.
Defined.

(* ================================================================== *)
(** ** Further properties: products                                    *)
(* ================================================================== *)

Lemma prefix_append (p s t : string) :
  String.prefix p s = true -> String.prefix p (s +:+ t) = true.
Proof.
  revert s. induction p as [|c p IH]; intros s.
  - intros _. by destruct (s +:+ t).
  - destruct s as [|d s]; simpl; [done|].
    destruct (ascii_dec c d); [apply IH|done].
Qed.

Section ProductsMore.
Variable host : Host.

Lemma appendPhotoVersion_prefix (url : string) (card : value) :
  String.prefix "http" url = true ->
  String.prefix "http" (appendPhotoVersion host url card) = true.
Proof.
  intros Hurl. unfold appendPhotoVersion.
  destruct (negb _); [done|]. destruct (String.eqb _ ""); [done|].
  by apply prefix_append.
Qed.

Lemma startsWith_http_prefix (v : value) (u : string) :
  startsWith_http v = Some u -> String.prefix "http" u = true.
Proof.
  destruct v; simpl; try done.
  destruct (String.prefix "http" s) eqn:Hs; [|done]. by intros [= <-].
Qed.

Lemma collect_http (items : value) (baseScore : Z) (c : candidate) :
  c ∈ collect items baseScore -> String.prefix "http" (c_url c) = true.
Proof.
  unfold collect. destruct items; try by intros ?%elem_of_nil.
  intros (l & Hc & Hl)%elem_of_concat.
  apply elem_of_lookup_imap_1 in Hl as (i & item & -> & _).
  unfold collectItem in Hc. destruct item; try by apply elem_of_nil in Hc.
  - destruct (String.prefix "http" s) eqn:Hs; [|by apply elem_of_nil in Hc].
    by apply list_elem_of_singleton in Hc as ->.
  - apply list_elem_of_omap in Hc as ([key score] & _ & Hc).
    destruct (startsWith_http _) as [u|] eqn:Hu; [|done].
    injection Hc as <-. by eapply startsWith_http_prefix.
Qed.

(** X8.  Whatever the card holds, a photo URL that [selectPhotoUrl] returns
    starts with [http]: strings of other shapes in the photo fields are
    never chosen, and the version parameter is only appended. *)
Theorem selectPhotoUrl_http (card : value) (u : string) :
  selectPhotoUrl host card = Some u -> String.prefix "http" u = true.
Proof.
  unfold selectPhotoUrl.
  destruct (sort_by compareCandidates (photoCandidates card)) as [|best rest] eqn:Hs.
  - destruct (startsWith_http (prop card "photo")) as [u1|] eqn:H1.
    { intros [= <-]. eapply appendPhotoVersion_prefix, startsWith_http_prefix, H1. }
    destruct (startsWith_http (prop card "image")) as [u2|] eqn:H2.
    { intros [= <-]. eapply appendPhotoVersion_prefix, startsWith_http_prefix, H2. }
    destruct (startsWith_http (prop card "imageUrl")) as [u3|] eqn:H3; [|done].
    intros [= <-]. eapply appendPhotoVersion_prefix, startsWith_http_prefix, H3.
  - intros [= <-]. apply appendPhotoVersion_prefix.
    assert (Hbest : best ∈ photoCandidates card).
    { apply (sort_by_elem_of compareCandidates). rewrite Hs. left. }
    unfold photoCandidates in Hbest.
    apply elem_of_app in Hbest as [Hb|[Hb|Hb]%elem_of_app];
      by eapply collect_http.
Qed.

(** X9.  Every product [normalizeProducts] returns has a vendor code that is
    not empty (a missing or blank one is replaced by a dash), and its
    photo URL, when it has one, starts with [http]. *)
Theorem normalizeProducts_fields (cards : list value) (products : list Product) :
  normalizeProducts host cards = Ok products ->
  forall p, p ∈ products ->
    vendor_code p <> ""
    /\ (forall u, photo_url p = Some u -> String.prefix "http" u = true).
Proof.
  intros (_ & _ & Hfrom & _)%normalizeProducts_spec p Hp.
  destruct (Hfrom p Hp) as (card & _ & ->). simpl. split.
  - destruct (String.eqb_spec (trim host (ToString
      (or_else (prop card "vendorCode") (VStr "-")))) ""); done.
  - apply selectPhotoUrl_http.
Qed.

Lemma compareProducts_consistent :
  (forall a b c, localeCompare host a b <= 0 -> localeCompare host b c <= 0 ->
                 localeCompare host a c <= 0) ->
  (forall a b, 0 < localeCompare host a b <-> localeCompare host b a < 0) ->
  consistent (compareProducts host).
Proof.
  intros Htrans Hanti. unfold consistent, compareProducts. split.
  - intros a b c.
    pose proof (Htrans (title a) (title b) (title c)) as Habc.
    pose proof (Htrans (title c) (title a) (title b)) as Hcab.
    pose proof (Htrans (title b) (title c) (title a)) as Hbca.
    pose proof (Hanti (title a) (title b)). pose proof (Hanti (title b) (title a)).
    pose proof (Hanti (title b) (title c)). pose proof (Hanti (title c) (title b)).
    pose proof (Hanti (title a) (title c)). pose proof (Hanti (title c) (title a)).
    destruct (Z.eqb_spec (localeCompare host (title a) (title b)) 0),
      (Z.eqb_spec (localeCompare host (title b) (title c)) 0),
      (Z.eqb_spec (localeCompare host (title a) (title c)) 0); simpl; lia.
  - intros a b.
    pose proof (Hanti (title a) (title b)). pose proof (Hanti (title b) (title a)).
    destruct (Z.eqb_spec (localeCompare host (title a) (title b)) 0),
      (Z.eqb_spec (localeCompare host (title b) (title a)) 0); simpl; lia.
Qed.

(** X10.  When the collation of titles is a consistent order (transitive, and
    reversed when its arguments are swapped), the products come out of
    [normalizeProducts] sorted by title and, for titles that collate
    equal, by strictly increasing identifier. *)
Theorem normalizeProducts_sorted (cards : list value) :
  (forall a b c, localeCompare host a b <= 0 -> localeCompare host b c <= 0 ->
                 localeCompare host a c <= 0) ->
  (forall a b, 0 < localeCompare host a b <-> localeCompare host b a < 0) ->
  Forall (fun c => nullish c = false) cards ->
  exists products,
    normalizeProducts host cards = Ok products
    /\ StronglySorted
         (fun p q => localeCompare host (title p) (title q) < 0
                     \/ (localeCompare host (title p) (title q) = 0
                         /\ nm_id p < nm_id q))
         products.
Proof.
  intros Htrans Hanti Hcards.
  destruct (scanCards_total host cards ∅ [] Hcards) as [ps Hps].
  assert (Hnorm : normalizeProducts host cards
                  = Ok (sort_by (compareProducts host) ps)).
  { unfold normalizeProducts. by rewrite Hps. }
  exists (sort_by (compareProducts host) ps). split; [done|].
  destruct (normalizeProducts_spec host _ _ Hnorm) as (_ & Hnd & _).
  pose proof (sort_by_sorted (compareProducts host) ps
                (compareProducts_consistent Htrans Hanti)) as Hsorted.
  clear Hnorm Hps. revert Hnd.
  induction Hsorted as [|p l _ IH Hp]; intros Hnd; [constructor|].
  simpl in Hnd. apply NoDup_cons in Hnd as [Hp' Hnd].
  constructor; [auto|]. rewrite Forall_forall in Hp |- *. intros q Hq.
  specialize (Hp q Hq). unfold compareProducts in Hp.
  assert (nm_id p <> nm_id q).
  { intros Heq. apply Hp'. rewrite Heq. apply list_elem_of_fmap. by exists q. }
  destruct (Z.eqb_spec (localeCompare host (title p) (title q)) 0);
    simpl in Hp; lia.
Qed.
End ProductsMore.

Lemma compare_base_swap (a b : string) :
  RefHost.compare_base b a = - RefHost.compare_base a b.
Proof.
  revert b. induction a as [|x a IH]; intros [|y b]; simpl; try done.
  destruct (Z.ltb_spec (RefHost.code (RefHost.lower x)) (RefHost.code (RefHost.lower y))),
    (Z.ltb_spec (RefHost.code (RefHost.lower y)) (RefHost.code (RefHost.lower x)));
    try done; try lia; apply IH.
Qed.

Lemma compare_base_trans (a b c : string) :
  RefHost.compare_base a b <= 0 -> RefHost.compare_base b c <= 0 ->
  RefHost.compare_base a c <= 0.
Proof.
  revert b c. induction a as [|x a IH]; intros [|y b] [|z c]; simpl; try lia.
  destruct (Z.ltb_spec (RefHost.code (RefHost.lower x)) (RefHost.code (RefHost.lower y))),
    (Z.ltb_spec (RefHost.code (RefHost.lower y)) (RefHost.code (RefHost.lower x))),
    (Z.ltb_spec (RefHost.code (RefHost.lower y)) (RefHost.code (RefHost.lower z))),
    (Z.ltb_spec (RefHost.code (RefHost.lower z)) (RefHost.code (RefHost.lower y))),
    (Z.ltb_spec (RefHost.code (RefHost.lower x)) (RefHost.code (RefHost.lower z))),
    (Z.ltb_spec (RefHost.code (RefHost.lower z)) (RefHost.code (RefHost.lower x)));
    try lia; apply IH.
Qed.

Lemma normalizeProducts_sorted_witness :
  exists products,
    normalizeProducts RefHost.host [Sample.cardB; Sample.cardA; Sample.cardA']
    = Ok products
    /\ StronglySorted
         (fun p q => RefHost.compare_base (title p) (title q) < 0
                     \/ (RefHost.compare_base (title p) (title q) = 0
                         /\ nm_id p < nm_id q))
         products.
Proof.
  apply (normalizeProducts_sorted RefHost.host
           [Sample.cardB; Sample.cardA; Sample.cardA']).
  - exact compare_base_trans.
  - intros a b. simpl. unfold RefHost.localeCompare.
    rewrite (compare_base_swap a b). lia.
  - repeat constructor.
Defined.

Lemma normalizeProducts_fields_witness :
  vendor_code Sample.productB <> ""
  /\ (forall u, photo_url Sample.productB = Some u -> String.prefix "http" u = true).
Proof.
  apply (normalizeProducts_fields RefHost.host
           [Sample.cardA; Sample.cardA'; Sample.cardB]
           [Sample.productA; Sample.productB] eq_refl Sample.productB).
  apply list_elem_of_further, list_elem_of_here.
Defined.

Lemma selectPhotoUrl_http_witness :
  String.prefix "http" "https://img/p-tm.webp" = true.
Proof.
  exact (selectPhotoUrl_http RefHost.host Sample.cardPhotos
           "https://img/p-tm.webp" eq_refl).
Defined.

(* ================================================================== *)
(** ** Further properties: storage                                     *)
(* ================================================================== *)

Section StorageMore.
Context {remote : Type}.
Variable kv_http : remote -> command -> response * remote.

(** A command to the backend leaves the configuration and the memory map
    as they are. *)
Lemma kvCommand_state (c : command) (st : store remote) :
  hasKV (kvCommand kv_http c st).2 = hasKV st
  /\ memoryStore (kvCommand kv_http c st).2 = memoryStore st.
Proof.
  unfold kvCommand. destruct (kv_http (backend st) c) as [resp r'].
  destruct resp as [e|ok status text json]; [done|].
  destruct (negb ok); [done|]. destruct json as [payload|]; [|done].
  by destruct (nullish payload).
Qed.

(** X11.  Without a remote backend the three operations are those of a map:
    a write is read back and replaces an earlier write, it does not touch
    other keys, the backend is never contacted, and [deleteValue] tells
    whether the key was there and makes it read as [null]. *)
Theorem local_store_is_a_map (st : store remote) (key other : string)
    (v w : value) :
  hasKV st = false ->
  (setValue kv_http key v (setValue kv_http key w st).2).2
    = (setValue kv_http key v st).2
  /\ (key <> other ->
      (getValue kv_http other (setValue kv_http key v st).2).1
      = (getValue kv_http other st).1)
  /\ backend (setValue kv_http key v st).2 = backend st
  /\ (getValue kv_http key st).2 = st
  /\ (deleteValue kv_http key st).1
     = Ok (bool_decide (is_Some (memoryStore st !! key)))
  /\ (getValue kv_http key (deleteValue kv_http key st).2).1 = Ok VNull
  /\ (key <> other ->
      (getValue kv_http other (deleteValue kv_http key st).2).1
      = (getValue kv_http other st).1).
Proof.
  intros Hkv. unfold setValue, getValue, deleteValue, memory_get, with_memory.
  repeat (rewrite ?Hkv; simpl). split_and!.
  - by rewrite insert_insert_eq.
  - intros Hne. by rewrite lookup_insert_ne.
  - done.
  - done.
  - done.
  - by rewrite lookup_delete_eq.
  - intros Hne. by rewrite lookup_delete_ne.
Qed.

(** X12.  [getValue] and [deleteValue] never throw: a failure of the backend is
    answered from the memory map. *)
Theorem getValue_deleteValue_total (st : store remote) (key : string) :
  (exists v, (getValue kv_http key st).1 = Ok v)
  /\ (exists b, (deleteValue kv_http key st).1 = Ok b).
Proof.
  unfold getValue, deleteValue. destruct (hasKV st); simpl; split; eauto.
  - destruct (kvCommand kv_http (GET key) st) as [[res|e] st']; simpl; eauto.
  - destruct (kvCommand kv_http (DEL key) st) as [[res|e] st']; simpl; eauto.
Qed.

(** X13.  With the backend configured: a value written while the backend was
    failing is read back as long as the backend keeps failing, but as soon
    as a [GET] succeeds [getValue] returns what the backend answers
    ([null] for no answer), whatever the memory map holds. *)
Theorem degraded_write_then_read (st : store remote) (key : string) (v : value) :
  hasKV st = true ->
  forall e st1, kvCommand kv_http (SET key v) st = (Throw e, st1) ->
    let st2 := (setValue kv_http key v st).2 in
    (forall e' st3, kvCommand kv_http (GET key) st2 = (Throw e', st3) ->
       (getValue kv_http key st2).1 = Ok (coalesce v VNull))
    /\ (forall res st3, kvCommand kv_http (GET key) st2 = (Ok res, st3) ->
          (getValue kv_http key st2).1 = Ok (coalesce res VNull)).
Proof.
  intros Hkv e st1 Hset st2.
  assert (Hst2 : st2 = with_memory <[key := v]> st1).
  { unfold st2, setValue. by rewrite Hkv, Hset. }
  assert (Hkv2 : hasKV st2 = true).
  { rewrite Hst2. simpl. pose proof (kvCommand_state (SET key v) st) as [H _].
    rewrite Hset in H. simpl in H. congruence. }
  split.
  - intros e' st3 Hget. unfold getValue. rewrite Hkv2, Hget. simpl.
    pose proof (kvCommand_state (GET key) st2) as [_ Hmem].
    rewrite Hget in Hmem. simpl in Hmem. unfold memory_get. rewrite Hmem, Hst2.
    simpl. by rewrite lookup_insert_eq.
  - intros res st3 Hget. unfold getValue. by rewrite Hkv2, Hget.
Qed.
End StorageMore.

Lemma local_store_is_a_map_witness :
  (getValue Sample.unreachable "a"
     (deleteValue Sample.unreachable "a"
        (setValue Sample.unreachable "a" (VStr "v") Sample.localStore).2).2).1
  = Ok VNull.
Proof.
  destruct (local_store_is_a_map Sample.unreachable
              (setValue Sample.unreachable "a" (VStr "v") Sample.localStore).2
              "a" "b" VNull VNull eq_refl) as (_ & _ & _ & _ & _ & H & _).
  exact H.
Defined.

Lemma degraded_write_then_read_witness :
  (getValue Sample.unreachable "k"
     (setValue Sample.unreachable "k" (VStr "v") Sample.degradedStore).2).1
  = Ok (VStr "v").
Proof.
  destruct (degraded_write_then_read Sample.unreachable Sample.degradedStore
              "k" (VStr "v") eq_refl "fetch failed" Sample.degradedStore eq_refl)
    as [H _].
  exact (H "fetch failed" _ eq_refl).
Defined.

(* ================================================================== *)
(** ** Further properties: initData verification                       *)
(* ================================================================== *)

Lemma string_compare_Lt_irrefl (a : string) : String.compare a a <> Lt.
Proof.
  induction a as [|x a IH]; simpl; [done|].
  unfold Ascii.compare. by rewrite N.compare_refl.
Qed.

Lemma ascending_unique (l1 l2 : list string) :
  StronglySorted (fun a b => String.compare a b = Lt) l1 ->
  StronglySorted (fun a b => String.compare a b = Lt) l2 ->
  l1 ≡ₚ l2 -> l1 = l2.
Proof.
  apply StronglySorted_unique_strong. intros a b _ _ Hab Hba.
  destruct (string_compare_Lt_irrefl a). by eapply string_compare_Lt_trans.
Qed.

Lemma lookup_prop_Permutation {V} (k : string) (m1 m2 : list (string * V)) :
  NoDup (keys m1) -> m1 ≡ₚ m2 -> lookup_prop k m1 = lookup_prop k m2.
Proof.
  intros Hnd Hperm.
  assert (Hnd2 : NoDup (keys m2)).
  { unfold keys in *. by rewrite <- Hperm. }
  destruct (lookup_prop k m1) as [v|] eqn:H1.
  - symmetry. apply elem_of_lookup_prop; [done|].
    rewrite <- Hperm. by apply lookup_prop_elem_of.
  - destruct (lookup_prop k m2) as [v|] eqn:H2; [|done].
    apply lookup_prop_elem_of in H2. rewrite <- Hperm in H2.
    apply elem_of_lookup_prop in H2; [congruence|done].
Qed.

Lemma fold_map_set_fresh {V} (entries m : list (string * V)) :
  NoDup (keys (m ++ entries)) ->
  fold_left (fun data '(key, v) => map_set key v data) entries m = m ++ entries.
Proof.
  revert m. induction entries as [|[key v] entries IH]; intros m Hnd; simpl.
  - by rewrite app_nil_r.
  - assert (Hfresh : map_set key v m = m ++ [(key, v)]).
    { assert (Hk : key ∉ keys m).
      { unfold keys in Hnd. rewrite fmap_app in Hnd.
        apply NoDup_app in Hnd as (_ & Hdisj & _).
        intros Hin. apply (Hdisj key Hin). left. }
      clear -Hk. induction m as [|[k0 v0] m IHm]; simpl; [done|].
      destruct (String.eqb_spec key k0) as [->|_].
      - exfalso. apply Hk. left.
      - f_equal. apply IHm. intros ?. apply Hk. by right. }
    rewrite Hfresh, IH; rewrite <- app_assoc; done.
Qed.

Section TelegramMore.
Variable host : Host.

(** The check string does not depend on the order of the pairs. *)
Lemma buildDataCheckString_Permutation (data1 data2 : list (string * string)) :
  NoDup (keys data1) -> data1 ≡ₚ data2 ->
  buildDataCheckString data1 = buildDataCheckString data2.
Proof.
  intros Hnd Hperm.
  assert (Hnd2 : NoDup (keys data2)).
  { unfold keys in *. by rewrite <- Hperm. }
  unfold buildDataCheckString.
  assert (Hks : sort_by compareStrings (filter (fun key => key <> "hash") (keys data1))
                = sort_by compareStrings (filter (fun key => key <> "hash") (keys data2))).
  { apply ascending_unique.
    - apply sort_strings_ascending. by apply NoDup_filter.
    - apply sort_strings_ascending. by apply NoDup_filter.
    - rewrite !sort_by_Permutation. unfold keys. by rewrite Hperm. }
  rewrite Hks. f_equal. apply map_ext. intros key. unfold field.
  by rewrite (lookup_prop_Permutation key data1 data2).
Qed.

(** X14.  Two payloads with the same pairs in another order, no key occurring
    twice, have the same computed hash: the signature does not depend on
    the order in which the client sends the fields. *)
Theorem computedHash_order_independent (botToken initData1 initData2 : string) :
  NoDup (keys (URLSearchParams_entries host initData1)) ->
  URLSearchParams_entries host initData1 ≡ₚ URLSearchParams_entries host initData2 ->
  computedHash botToken (parseInitData host initData1)
  = computedHash botToken (parseInitData host initData2).
Proof.
  intros Hnd Hperm.
  assert (Hnd2 : NoDup (keys (URLSearchParams_entries host initData2))).
  { unfold keys in *. by rewrite <- Hperm. }
  unfold computedHash, parseInitData.
  rewrite !fold_map_set_fresh by done. simpl.
  by rewrite (buildDataCheckString_Permutation _ _ Hnd Hperm).
Qed.

(** X15.  The check string, and so the computed hash, does not depend on the
    value of the [hash] field itself. *)
Theorem computedHash_ignores_hash (botToken h : string)
    (data : list (string * string)) :
  computedHash botToken (map_set "hash" h data) = computedHash botToken data.
Proof.
  unfold computedHash. do 3 f_equal. unfold buildDataCheckString.
  assert (Hks : filter (fun key => key <> "hash") (keys (map_set "hash" h data))
                = filter (fun key => key <> "hash") (keys data)).
  { rewrite keys_map_set. case_bool_decide; [done|].
    rewrite filter_app, filter_cons, decide_False, filter_nil by (by intros ?).
    by rewrite app_nil_r. }
  rewrite Hks. f_equal. apply map_ext_in. intros key Hkey.
  rewrite <- list_elem_of_In, sort_by_elem_of, list_elem_of_filter in Hkey.
  destruct Hkey as [Hne _].
  unfold field. rewrite lookup_prop_map_set. by rewrite decide_False.
Qed.

Lemma verifyInitData_signed (nowMs : Z) (initData botToken : string)
    (maxAgeSeconds : Z) :
  initData <> "" -> botToken <> "" ->
  let data := parseInitData host initData in
  field data "hash" <> "" ->
  verifyInitData host nowMs initData botToken maxAgeSeconds
  = if negb (String.eqb (computedHash botToken data) (field data "hash"))
    then Rejected "Invalid initData signature."
    else
      let authDate :=
        if String.eqb (field data "auth_date") "" then Fin 0
        else StringToNumber host (field data "auth_date") in
      if negb (maxAgeSeconds =? 0) && truthy (VNum authDate)
         && expired (nowMs / 1000) authDate maxAgeSeconds
      then Rejected "initData expired."
      else if String.eqb (field data "user") "" then Accepted data VNull
      else match JSON_parse host (field data "user") with
           | None => Rejected "Invalid user JSON."
           | Some user => Accepted data user
           end.
Proof.
  intros Hinit Htoken data Hhash. unfold verifyInitData.
  destruct (String.eqb_spec initData "") as [?|_]; [contradiction|].
  destruct (String.eqb_spec botToken "") as [?|_]; [contradiction|].
  cbn [orb].
  destruct (String.eqb_spec (field (parseInitData host initData) "hash") "")
    as [?|_]; [contradiction|].
  reflexivity.
Qed.

(** X16.  Freshness.  For a payload whose signature matches: without an
    [auth_date] field (or with an empty one) the payload never expires;
    with an [auth_date] that reads as the non-zero number [a] and a
    non-zero allowed age, the payload is refused as expired exactly when
    the whole seconds of the clock exceed [a] by more than the allowed
    age, so a payload exactly [maxAgeSeconds] old still passes. *)
Theorem verifyInitData_freshness (nowMs : Z) (initData botToken : string)
    (maxAgeSeconds : Z) :
  initData <> "" -> botToken <> "" ->
  let data := parseInitData host initData in
  field data "hash" <> "" ->
  computedHash botToken data = field data "hash" ->
  (field data "auth_date" = "" ->
   verifyInitData host nowMs initData botToken maxAgeSeconds
   <> Rejected "initData expired.")
  /\ (forall a,
        field data "auth_date" <> "" ->
        StringToNumber host (field data "auth_date") = Fin a ->
        a <> 0 -> maxAgeSeconds <> 0 ->
        (verifyInitData host nowMs initData botToken maxAgeSeconds
         = Rejected "initData expired."
         <-> maxAgeSeconds < nowMs / 1000 - a)).
Proof.
  intros Hinit Htoken data Hhash Hsig.
  rewrite (verifyInitData_signed nowMs initData botToken maxAgeSeconds Hinit Htoken Hhash).
  fold data. rewrite Hsig, String.eqb_refl. cbn [negb]. cbv zeta. split.
  - intros Hdate. rewrite Hdate. simpl. rewrite andb_false_r. simpl.
    destruct (String.eqb _ ""); [done|]. by destruct (JSON_parse host _).
  - intros a Hdate Hnum Ha Hmax.
    destruct (String.eqb_spec (field data "auth_date") "") as [?|_]; [contradiction|].
    rewrite Hnum. simpl.
    destruct (Z.eqb_spec maxAgeSeconds 0) as [?|_]; [contradiction|].
    destruct (Z.eqb_spec a 0) as [?|_]; [contradiction|]. simpl.
    destruct (Z.ltb_spec maxAgeSeconds (nowMs / 1000 - a)).
    + done.
    + split; [|lia]. destruct (String.eqb _ ""); [done|].
      by destruct (JSON_parse host _).
Qed.
End TelegramMore.

Lemma computedHash_order_independent_witness :
  computedHash "123:ABC" (parseInitData RefHost.host "a=1&b=2")
  = computedHash "123:ABC" (parseInitData RefHost.host "b=2&a=1").
Proof.
  apply (computedHash_order_independent RefHost.host "123:ABC" "a=1&b=2" "b=2&a=1").
  - apply (bool_decide_unpack _). vm_compute. exact I.
  - vm_compute. apply perm_swap.
Defined.

Lemma verifyInitData_freshness_witness :
  verifyInitData RefHost.host 1700086400999 Sample.initData Sample.botToken 86400
    <> Rejected "initData expired."
  /\ verifyInitData RefHost.host 1700086401000 Sample.initData Sample.botToken 86400
    = Rejected "initData expired.".
Proof.
  assert (H1 : Sample.initData <> "") by (vm_compute; discriminate).
  assert (H2 : Sample.botToken <> "") by (vm_compute; discriminate).
  assert (H3 : field (parseInitData RefHost.host Sample.initData) "hash" <> "")
    by (vm_compute; discriminate).
  assert (H4 : computedHash Sample.botToken (parseInitData RefHost.host Sample.initData)
               = field (parseInitData RefHost.host Sample.initData) "hash")
    by (vm_compute; reflexivity).
  assert (H5 : field (parseInitData RefHost.host Sample.initData) "auth_date" <> "")
    by (vm_compute; discriminate).
  assert (H6 : StringToNumber RefHost.host
                 (field (parseInitData RefHost.host Sample.initData) "auth_date")
               = Fin 1700000000) by (vm_compute; reflexivity).
  split.
  - intros Hexp.
    apply (proj2 (verifyInitData_freshness RefHost.host 1700086400999 Sample.initData
                    Sample.botToken 86400 H1 H2 H3 H4) 1700000000 H5 H6) in Hexp;
      [vm_compute in Hexp; discriminate|lia|lia].
  - apply (proj2 (verifyInitData_freshness RefHost.host 1700086401000 Sample.initData
                    Sample.botToken 86400 H1 H2 H3 H4) 1700000000 H5 H6);
      [lia|lia|vm_compute; reflexivity].
Defined.

(** *** The size of the computed hash *)

Lemma round_length (st : list Z) (kw : Z * Z) :
  length (Sha256.round st kw) = length st.
Proof.
  unfold Sha256.round.
  destruct st as [|a [|b [|c [|d [|e [|f [|g [|h [|i st]]]]]]]]]; done.
Qed.

Lemma compress_length (h block : list Z) :
  length (Sha256.compress h block) = length h.
Proof.
  unfold Sha256.compress. rewrite length_zip_with.
  assert (H : forall kws st, length (fold_left Sha256.round kws st) = length st).
  { induction kws as [|kw kws IH]; intros st; simpl; [done|].
    by rewrite IH, round_length. }
  rewrite H. lia.
Qed.

Lemma sha256_length (msg : list Z) : length (Sha256.sha256 msg) = 32%nat.
Proof.
  unfold Sha256.sha256.
  assert (Hws : forall blocks h,
    length (fold_left Sha256.compress blocks h) = length h).
  { induction blocks as [|b blocks IH]; intros h; simpl; [done|].
    by rewrite IH, compress_length. }
  generalize (Hws (Sha256.chunks 64 (length (Sha256.pad msg)) (Sha256.pad msg))
                Sha256.H0).
  generalize (fold_left Sha256.compress
                (Sha256.chunks 64 (length (Sha256.pad msg)) (Sha256.pad msg))
                Sha256.H0).
  intros ws Hlen. change (length Sha256.H0) with 8%nat in Hlen.
  destruct ws as [|a [|b [|c [|d [|e [|f [|g [|h [|i ws]]]]]]]]]; done.
Qed.

Lemma hex_length (bs : list Z) :
  String.length (Sha256.hex bs) = (2 * length bs)%nat.
Proof.
  unfold Sha256.hex.
  assert (H : forall l, String.length (string_of_list_ascii l) = length l).
  { induction l as [|c l IH]; simpl; [done|]. by rewrite IH. }
  rewrite H. induction bs as [|b bs IH]; simpl; [done|]. rewrite IH. lia.
Qed.

Section HashSize.
Variable host : Host.

(** X17.  The computed hash always has 64 characters, so a payload whose [hash]
    field has another length is never accepted, whatever the bot token
    and the clock. *)
Theorem verifyInitData_hash_size (nowMs : Z) (initData botToken : string)
    (maxAgeSeconds : Z) :
  String.length (computedHash botToken (parseInitData host initData)) = 64%nat
  /\ (String.length (field (parseInitData host initData) "hash") <> 64%nat ->
      forall data user,
        verifyInitData host nowMs initData botToken maxAgeSeconds
        <> Accepted data user).
Proof.
  assert (Hlen : forall data, String.length (computedHash botToken data) = 64%nat).
  { intros data. unfold computedHash. rewrite hex_length.
    unfold Sha256.hmac. by rewrite sha256_length. }
  split; [apply Hlen|].
  intros Hhash data user. unfold verifyInitData.
  destruct (_ || _); [done|].
  destruct (String.eqb (field _ "hash") ""); [done|].
  destruct (String.eqb_spec (computedHash botToken (parseInitData host initData))
              (field (parseInitData host initData) "hash")) as [Heq|_]; [|done].
  rewrite <- Heq, Hlen in Hhash. done.
Qed.
End HashSize.

Lemma verifyInitData_hash_size_witness :
  verifyInitData RefHost.host 0 "auth_date=1&hash=5D17D965" "123:ABC" 0
  <> Accepted [("auth_date", "1"); ("hash", "5D17D965")] VNull.
Proof.
  apply (proj2 (verifyInitData_hash_size RefHost.host 0
                  "auth_date=1&hash=5D17D965" "123:ABC" 0)).
  vm_compute. discriminate.
Defined.

(* ================================================================== *)
(** ** Further properties: CSV                                         *)
(* ================================================================== *)

Lemma append_length (a b : string) :
  String.length (a +:+ b) = (String.length a + String.length b)%nat.
Proof. induction a as [|c a IH]; simpl; [done|]. by rewrite IH. Qed.

Lemma append_inj_l (a b t : string) : a +:+ t = b +:+ t -> a = b.
Proof.
  revert b. induction a as [|c a IH]; intros [|d b] H; simpl in *; try done.
  - apply (f_equal String.length) in H.
    rewrite !append_length in H. simpl in H. lia.
  - apply (f_equal String.length) in H.
    rewrite !append_length in H. simpl in H. lia.
  - injection H as -> H. f_equal. by apply IH.
Qed.

Lemma double_quotes_inj (a b : string) :
  double_quotes a = double_quotes b -> a = b.
Proof.
  revert b. induction a as [|c a IH]; intros [|d b]; simpl.
  - done.
  - by destruct (Ascii.eqb d dquote).
  - by destruct (Ascii.eqb c dquote).
  - destruct (Ascii.eqb_spec c dquote) as [->|Hc],
      (Ascii.eqb_spec d dquote) as [->|Hd].
    + intros [= H]. f_equal. by apply IH.
    + intros [= <- _]. done.
    + intros [= -> _]. done.
    + intros [= -> H]. f_equal. by apply IH.
Qed.

(** X18.  Distinct texts give distinct cells: [csvEscape] is injective on
    strings (the only values it merges are [null], [undefined] and the
    empty string, and values with the same text). *)
Theorem csvEscape_injective (a b : string) :
  csvEscape (VStr a) = csvEscape (VStr b) -> a = b.
Proof.
  unfold csvEscape. simpl.
  set (special := fun s => includes_char dquote s || includes_char "," s
                           || includes_char LF s || includes_char CR s).
  fold (special a). fold (special b).
  assert (Hquoted : forall s t, special s = false ->
            s <> String dquote t).
  { intros s t Hs ->. by vm_compute in Hs. }
  destruct (special a) eqn:Ha, (special b) eqn:Hb.
  - intros [= H]. apply append_inj_l in H. by apply double_quotes_inj.
  - intros H. symmetry in H. by apply Hquoted in H.
  - intros H. by apply Hquoted in H.
  - done.
Qed.

(** An induction principle that reaches the values nested in arrays and
    objects. *)
Lemma value_nested_ind (P : value -> Prop) :
  P VUndef -> P VNull -> (forall b, P (VBool b)) -> (forall n, P (VNum n)) ->
  (forall s, P (VStr s)) ->
  (forall items, Forall P items -> P (VArr items)) ->
  (forall props, Forall (fun kv => P kv.2) props -> P (VObj props)) ->
  forall v, P v.
Proof.
  intros Hu Hn Hb Hnum Hs Harr Hobj.
  fix IH 1. intros [| |b|n|s|items|props].
  - exact Hu.
  - exact Hn.
  - exact (Hb b).
  - exact (Hnum n).
  - exact (Hs s).
  - apply Harr.
    exact ((fix all (l : list value) : Forall P l :=
              match l with
              | [] => Forall_nil_2 P
              | x :: l' => Forall_cons_2 P x l' (IH x) (all l')
              end) items).
  - apply Hobj.
    exact ((fix all (l : object) : Forall (fun kv => P kv.2) l :=
              match l with
              | [] => Forall_nil_2 _
              | kv :: l' => Forall_cons_2 _ kv l' (IH kv.2) (all l')
              end) props).
Qed.

Section CsvMore.
Variable host : Host.

(** The loop of [flattenRow] over the entries of an object, as a fold. *)
Lemma flattenRow_object (entries : object) (prefix : string) (output : object) :
  flattenRow host (VObj entries) prefix output
  = fold_left
      (fun out '(key, v) =>
         let nextKey :=
           if String.eqb prefix "" then key else prefix +:+ "." +:+ key in
         match v with
         | VObj _ => flattenRow host v nextKey out
         | VArr _ => map_set nextKey (VStr (JSON_stringify host v)) out
         | _ => map_set nextKey v out
         end) entries output.
Proof.
  simpl. revert output.
  induction entries as [|[key v] entries IH]; intros output; [done|].
  simpl. by rewrite IH.
Qed.

(** X19.  Flattening a record leaves only scalars in the row: a nested record
    is spread over dotted columns and an array becomes a string, so every
    cell that was not in [output] before holds neither an object nor an
    array. *)
Theorem flattenRow_scalars (entries : object) (prefix : string) (output : object) :
  forall kv, kv ∈ flattenRow host (VObj entries) prefix output ->
    kv ∈ output \/ scalar kv.2.
Proof.
  assert (H : forall v,
    match v with
    | VObj _ => forall prefix output kv,
        kv ∈ flattenRow host v prefix output -> kv ∈ output \/ scalar kv.2
    | _ => True
    end); [|exact (H (VObj entries) prefix output)].
  clear. induction v as [| | | | | |props IHprops] using value_nested_ind; try done.
  intros prefix output kv. rewrite flattenRow_object. revert output.
  induction IHprops as [|[key v] props Hv _ IH]; intros output; simpl; [by left|].
  intros [Hin|Hs]%IH; [|by right]. simpl in Hv.
  destruct v; try (apply elem_of_map_set in Hin as [->|?]; [by right|by left]).
  exact (Hv _ _ _ Hin).
Qed.

Lemma prefix_nil (s : string) : String.prefix "" s = true.
Proof. by destruct s. Qed.

Lemma prefix_trans (a b c : string) :
  String.prefix a b = true -> String.prefix b c = true ->
  String.prefix a c = true.
Proof.
  revert b c. induction a as [|x a IH]; intros b c Hab Hbc; [apply prefix_nil|].
  destruct b as [|y b]; [done|]. destruct c as [|z c]; [done|]. simpl in *.
  destruct (ascii_dec x y) as [->|]; [|done].
  destruct (ascii_dec y z) as [->|]; [|done]. by eapply IH.
Qed.

Lemma prefix_self_append (b t : string) : String.prefix b (b +:+ t) = true.
Proof.
  induction b as [|c b IH]; [apply prefix_nil|]. simpl.
  by destruct (ascii_dec c c).
Qed.

Lemma keys_map_set_elem_of {V} (k k' : string) (v : V) (m : list (string * V)) :
  k ∈ keys (map_set k' v m) -> k = k' \/ k ∈ keys m.
Proof.
  rewrite keys_map_set. case_bool_decide; [by right|].
  intros [?|Hk%list_elem_of_singleton]%elem_of_app; [by right|by left].
Qed.

(** Below a non-empty path, [flattenRow] only adds columns whose names
    start with the path and a dot. *)
Lemma flattenRow_under_prefix (entries : object) (prefix : string)
    (output : object) (k : string) :
  prefix <> "" ->
  k ∈ keys (flattenRow host (VObj entries) prefix output) ->
  k ∈ keys output \/ String.prefix (prefix +:+ ".") k = true.
Proof.
  assert (H : forall v,
    match v with
    | VObj _ => forall prefix output,
        prefix <> "" -> k ∈ keys (flattenRow host v prefix output) ->
        k ∈ keys output \/ String.prefix (prefix +:+ ".") k = true
    | _ => True
    end); [|exact (H (VObj entries) prefix output)].
  clear. induction v as [| | | | | |props IHprops] using value_nested_ind; try done.
  intros prefix output Hprefix. rewrite flattenRow_object. revert output.
  destruct (String.eqb_spec prefix "") as [?|_]; [done|].
  induction IHprops as [|[key v] props Hv _ IH]; intros output; simpl; [by left|].
  intros [Hin|Hs]%IH; [|by right].
  assert (Hleaf : String.prefix (prefix +:+ ".") (prefix +:+ "." +:+ key) = true).
  { clear. induction prefix as [|c p IHp]; simpl; [by destruct key|].
    by destruct (ascii_dec c c). }
  simpl in Hv.
  destruct v; try (apply keys_map_set_elem_of in Hin as [->|?]; [by right|by left]).
  apply Hv in Hin as [?|Hin]; [by left| |by destruct prefix].
  right. eapply prefix_trans; [exact Hleaf|].
  eapply prefix_trans; [apply prefix_self_append|exact Hin].
Qed.

(** X20.  The columns of a record whose field names are not empty: every column
    is named after a top-level field, either exactly or as that name
    followed by a dot and the path inside the nested record. *)
Theorem flattenRow_columns (entries : object) (k : string) :
  "" ∉ keys entries ->
  k ∈ keys (flattenRow host (VObj entries) "" []) ->
  exists name, name ∈ keys entries
               /\ (k = name \/ String.prefix (name +:+ ".") k = true).
Proof.
  rewrite flattenRow_object. simpl.
  assert (H : forall output,
    "" ∉ keys entries ->
    k ∈ keys (fold_left
                (fun out '(key, v) =>
                   match v with
                   | VObj _ => flattenRow host v key out
                   | VArr _ => map_set key (VStr (JSON_stringify host v)) out
                   | _ => map_set key v out
                   end) entries output) ->
    k ∈ keys output
    \/ exists name, name ∈ keys entries
                    /\ (k = name \/ String.prefix (name +:+ ".") k = true));
    [|intros Hne Hk; destruct (H [] Hne Hk) as [?%elem_of_nil|?]; done].
  induction entries as [|[key v] entries IH]; intros output Hne; simpl; [by left|].
  assert (Hkey : key <> "") by (intros ->; apply Hne; left).
  assert (Hrest : "" ∉ keys entries) by (intros ?; apply Hne; by right).
  intros [Hin|(name & Hname & Hk)]%IH; [|right; exists name; split; [by right|done]|done].
  assert (Hhere : k ∈ keys output
                  \/ (k = key \/ String.prefix (key +:+ ".") k = true)).
  { destruct v; try (apply keys_map_set_elem_of in Hin as [->|?]; [right; by left|by left]).
    apply flattenRow_under_prefix in Hin as [?|?]; [by left|right; by right|done]. }
  destruct Hhere as [?|Hk]; [by left|]. right. exists key. split; [left|done].
Qed.

(** X21.  The header row does not depend on the order of the rows: reordering
    the input leaves the columns and their order as they are, each row
    keeps its line, and the data lines are the same lines reordered. *)
Theorem toCsv_row_order (rows1 rows2 : list value) :
  rows1 ≡ₚ rows2 ->
  let flat := fun row => flattenRow host row "" [] in
  headersOf (map flat rows1) = headersOf (map flat rows2)
  /\ exists line : value -> string,
       toCsv host rows1
       = BOM +:+ String.concat (String LF EmptyString)
                   (String.concat "," (headersOf (map flat rows1))
                    :: map line rows1)
       /\ toCsv host rows2
          = BOM +:+ String.concat (String LF EmptyString)
                      (String.concat "," (headersOf (map flat rows1))
                       :: map line rows2)
       /\ map line rows1 ≡ₚ map line rows2.
Proof.
  intros Hperm flat.
  assert (Hheaders : headersOf (map flat rows1) = headersOf (map flat rows2)).
  { destruct (headersOf_spec (map flat rows1)) as [Hs1 Hin1].
    destruct (headersOf_spec (map flat rows2)) as [Hs2 Hin2].
    apply ascending_unique; [done|done|].
    apply NoDup_Permutation.
    - clear -Hs1. induction Hs1 as [|x l _ IH Hx]; constructor; [|done].
      intros Hin. rewrite Forall_forall in Hx.
      by destruct (string_compare_Lt_irrefl x (Hx x Hin)).
    - clear -Hs2. induction Hs2 as [|x l _ IH Hx]; constructor; [|done].
      intros Hin. rewrite Forall_forall in Hx.
      by destruct (string_compare_Lt_irrefl x (Hx x Hin)).
    - intros key. rewrite Hin1, Hin2. by setoid_rewrite Hperm. }
  split; [done|].
  exists (fun row =>
            String.concat ","
              (map (fun key => csvEscape (cell (flat row) key))
                 (headersOf (map flat rows1)))).
  split_and!.
  - unfold toCsv. fold flat. by rewrite map_map.
  - unfold toCsv. fold flat. by rewrite <- Hheaders, map_map.
  - by rewrite Hperm.
Qed.
End CsvMore.

Lemma flattenRow_columns_witness :
  exists name, name ∈ ["a"; "b"]
               /\ ("b.c" = name \/ String.prefix (name +:+ ".") "b.c" = true).
Proof.
  apply (flattenRow_columns RefHost.host
           [("a", Sample.num 1); ("b", VObj [("c", Sample.num 2)])] "b.c").
  - vm_compute. intros H. apply list_elem_of_In in H. simpl in H.
    destruct H as [H|[H|[]]]; discriminate H.
  - vm_compute. right. left.
Defined.

Lemma toCsv_row_order_witness :
  headersOf (map (fun row => flattenRow RefHost.host row "" []) Sample.tableRows)
  = headersOf (map (fun row => flattenRow RefHost.host row "" [])
                 (reverse Sample.tableRows)).
Proof.
  refine (proj1 (toCsv_row_order RefHost.host Sample.tableRows
                   (reverse Sample.tableRows) _)).
  vm_compute. apply perm_swap.
Defined.

Lemma csvEscape_injective_witness : "x,y" = "x,y".
Proof. exact (csvEscape_injective "x,y" "x,y" eq_refl). Defined.

Lemma flattenRow_scalars_witness :
  ("tags", VStr "[1,2]") ∈ @nil (string * value) \/ scalar (VStr "[1,2]").
Proof.
  apply (flattenRow_scalars RefHost.host
           [("tags", VArr [Sample.num 1; Sample.num 2])] "" []
           ("tags", VStr "[1,2]")).
  vm_compute. left.
Defined.

(* ================================================================== *)
(** ** Further properties: the request handlers                        *)
(* ================================================================== *)


Section HandlersMore.
Variable host : Host.
Context {remote : Type}.
Variable kv_http : remote -> command -> response * remote.
Variable http : request -> response.
Variables (botToken : string) (nowMs : Z).

(** X22.  Every handler answers a request that is not a POST with 405, without
    reading the body and without touching the store. *)
Theorem handlers_refuse_other_methods (fuel : nat) (method : string)
    (body : value) (st : store remote) :
  method <> "POST" ->
  let refused := Json 405 (errorBody "Method not allowed") in
  saveTokenHandler host kv_http botToken nowMs method body st = Some (refused, st)
  /\ whoAmIHandler host botToken nowMs method body = Some refused
  /\ productsHandler host kv_http http botToken nowMs fuel method body st
     = Some (refused, st)
  /\ questionsHandler host kv_http http botToken nowMs fuel method body st
     = Some (refused, st).
Proof.
  intros Hmethod refused.
  assert (Hauth : authenticate host botToken nowMs method body = Some (inl refused)).
  { unfold authenticate. by destruct (String.eqb_spec method "POST"). }
  unfold saveTokenHandler, whoAmIHandler, productsHandler, questionsHandler.
  by rewrite Hauth.
Qed.

Lemma authenticate_user (method : string) (body user : value) :
  authenticate host botToken nowMs method body = Some (inr user) ->
  method = "POST"
  /\ truthy (prop user "id") = true
  /\ exists initData data u,
       initDataOf body = Some initData
       /\ verifyInitData host nowMs initData botToken 86400 = Accepted data u
       /\ user = or_else u (VObj []).
Proof.
  unfold authenticate. destruct (String.eqb_spec method "POST") as [Hm|Hm]; [|done].
  simpl.
  destruct (initDataOf body) as [initData|]; [|done].
  destruct (verifyInitData host nowMs initData botToken 86400) as [err|data u] eqn:Hv;
    [done|].
  destruct (truthy (prop (or_else u (VObj [])) "id")) eqn:Hid; [|done].
  simpl. intros [= <-]. eauto 10.
Qed.

(** X23.  No data without a verified caller: when the catalog or the questions
    handler replies 200, or the token handler changes the store, the
    request was a POST whose [initData] passed [verifyInitData] and named
    a user with an id. *)
Theorem handlers_require_verified_user (fuel : nat) (method : string)
    (body : value) (st st' : store remote) (r : reply) :
  (productsHandler host kv_http http botToken nowMs fuel method body st = Some (r, st')
   /\ statusOf r = Some 200)
  \/ (questionsHandler host kv_http http botToken nowMs fuel method body st = Some (r, st')
      /\ statusOf r = Some 200)
  \/ (saveTokenHandler host kv_http botToken nowMs method body st = Some (r, st')
      /\ (statusOf r = Some 200 \/ st' <> st)) ->
  method = "POST"
  /\ exists initData data u,
       initDataOf body = Some initData
       /\ verifyInitData host nowMs initData botToken 86400 = Accepted data u
       /\ truthy (prop (or_else u (VObj [])) "id") = true.
Proof.
  assert (Hauth : forall user,
    authenticate host botToken nowMs method body = Some (inr user) ->
    method = "POST"
    /\ exists initData data u,
         initDataOf body = Some initData
         /\ verifyInitData host nowMs initData botToken 86400 = Accepted data u
         /\ truthy (prop (or_else u (VObj [])) "id") = true).
  { intros user (Hm & Hid & initData & data & u & H1 & H2 & ->)%authenticate_user.
    eauto 10. }
  assert (Hrefusal : forall r0,
    authenticate host botToken nowMs method body = Some (inl r0) ->
    statusOf r0 <> Some 200).
  { intros r0. unfold authenticate. destruct (negb _); [by intros [= <-]|].
    destruct (initDataOf body); [|done].
    destruct (verifyInitData _ _ _ _ _); [by intros [= <-]|].
    destruct (negb _); [by intros [= <-]|done]. }
  unfold productsHandler, questionsHandler, saveTokenHandler.
  destruct (authenticate host botToken nowMs method body) as [[r0|user]|] eqn:Ha.
  - specialize (Hrefusal r0 eq_refl).
    intros [[[= <- <-] ?]|[[[= <- <-] ?]|[[= <- <-] [?|?]]]]; done.
  - intros _. by apply (Hauth user).
  - intros [[? _]|[[? _]|[? _]]]; done.
Qed.


(** X25.  Without a remote backend, a token saved by the token handler is the
    one the catalog handler reads for the same user: the catalog is
    fetched with the trimmed token, and a token of blanks only, which the
    token handler accepts with 200, leaves the catalog handler answering
    that no token is set. *)
Theorem saved_token_reaches_catalog (fuel : nat) (body body' user user' : value)
    (w : string) (st : store remote) :
  hasKV st = false ->
  authenticate host botToken nowMs "POST" body = Some (inr user) ->
  authenticate host botToken nowMs "POST" body' = Some (inr user') ->
  tokenKey user' = tokenKey user ->
  prop (bodyOf body) "wbToken" = VStr w ->
  w <> "" ->
  exists st1,
    saveTokenHandler host kv_http botToken nowMs "POST" body st
      = Some (Json 200 (VObj [("ok", VBool true)]), st1)
    /\ backend st1 = backend st
    /\ (trim host w = "" ->
        productsHandler host kv_http http botToken nowMs fuel "POST" body' st1
        = Some (Json 401 (errorBody "WB token not set."), st1))
    /\ (trim host w <> "" ->
        productsHandler host kv_http http botToken nowMs fuel "POST" body' st1
        = match fetchProductCards host http fuel (trim host w) 100 2000 with
          | None => None
          | Some (Ok products) =>
              Some (Json 200 (VObj [("products", VArr (map productJson products))]),
                    st1)
          | Some (Throw e) =>
              Some (Json 500 (errorBody (messageOr "WB API error" e)), st1)
          end).
Proof.
  intros Hkv Ha Ha' Hkey Hw Hne.
  exists (with_memory <[tokenKey user := VStr (trim host w)]> st).
  unfold saveTokenHandler, productsHandler. rewrite Ha, Ha', Hw, Hkey.
  destruct (String.eqb_spec w "") as [?|_]; [done|].
  unfold setValue, getValue, memory_get. simpl. rewrite Hkv. simpl.
  rewrite lookup_insert_eq. simpl.
  split_and!; [done|done| |].
  - intros ->. done.
  - intros Hblank. unfold coalesce. simpl.
    by destruct (String.eqb_spec (trim host w) "").
Qed.
End HandlersMore.

Lemma handlers_refuse_other_methods_witness :
  questionsHandler Sample.userHost Sample.unreachable Sample.unansweredOnly
    Sample.botToken 1700000005000 5 "GET" Sample.saveRequest Sample.localStore
  = Some (Json 405 (errorBody "Method not allowed"), Sample.localStore).
Proof.
  refine (proj2 (proj2 (proj2
    (handlers_refuse_other_methods Sample.userHost Sample.unreachable
       Sample.unansweredOnly Sample.botToken 1700000005000 5 "GET"
       Sample.saveRequest Sample.localStore _)))).
  discriminate.
Defined.

Lemma handlers_require_verified_user_witness :
  exists data u,
    verifyInitData Sample.userHost 1700000005000 Sample.userInitData
      Sample.botToken 86400 = Accepted data u
    /\ truthy (prop (or_else u (VObj [])) "id") = true.
Proof.
  destruct (handlers_require_verified_user Sample.userHost Sample.unreachable
              Sample.onePage Sample.botToken 1700000005000 5 "POST"
              Sample.saveRequest Sample.localStore
              (with_memory <["user:42:wb_token" := VStr "seller-token"]>
                 Sample.localStore)
              (Json 200 (VObj [("ok", VBool true)])))
    as (_ & initData & data & u & Hinit & Hv & Hid).
  { right. right. split; [vm_compute; reflexivity|left; reflexivity]. }
  injection Hinit as <-. exists data, u. by split.
Defined.


Lemma saved_token_reaches_catalog_witness :
  exists st1,
    saveTokenHandler Sample.userHost Sample.unreachable Sample.botToken
      1700000005000 "POST" Sample.saveRequest Sample.localStore
      = Some (Json 200 (VObj [("ok", VBool true)]), st1)
    /\ productsHandler Sample.userHost Sample.unreachable Sample.onePage
         Sample.botToken 1700000005000 5 "POST" Sample.saveRequest st1
       = Some (Json 200 (VObj [("products",
                 VArr (map productJson [Sample.productA; Sample.productB]))]),
               st1).
Proof.
  destruct (saved_token_reaches_catalog Sample.userHost Sample.unreachable
              Sample.onePage Sample.botToken 1700000005000 5
              Sample.saveRequest Sample.saveRequest
              (VObj [("id", Sample.num 42)]) (VObj [("id", Sample.num 42)])
              " seller-token " Sample.localStore)
    as (st1 & Hsave & _ & _ & Hlist); try (vm_compute; reflexivity).
  { discriminate. }
  exists st1. split; [exact Hsave|]. rewrite Hlist by (vm_compute; discriminate).
  vm_compute. reflexivity.
Defined.

(* ================================================================== *)
(** ** Further properties: reviews                                     *)
(* ================================================================== *)

Section ReviewsMore.
Variable host : Host.
Variable http : request -> response.

(** X26.  [fetchLatestReviews] gives rows only when both the unanswered and the
    answered page were fetched, each asked with a page size between 1 and
    500; every row it gives comes from one of the two pages, there are no
    more of them than the pages hold, and no more than a positive
    [limit]. *)
Theorem fetchLatestReviews_rows (token : string) (nmId : number) (limit : Z)
    (out : list value) :
  fetchLatestReviews host http token nmId limit = Ok out ->
  exists take unanswered answered,
    1 <= take <= 500
    /\ fetchFeedbacks http token nmId false take 0 "dateDesc" = Ok unanswered
    /\ fetchFeedbacks http token nmId true take 0 "dateDesc" = Ok answered
    /\ (forall row, row ∈ out -> row ∈ unanswered \/ row ∈ answered)
    /\ (length out <= length unanswered + length answered)%nat
    /\ (0 < limit -> Z.of_nat (length out) <= limit).
Proof.
  unfold fetchLatestReviews.
  intros (unanswered & Hu & (answered & Ha & Hout)%bind_Ok)%bind_Ok.
  exists (Z.min (Z.max limit 1) 500), unanswered, answered.
  split; [lia|]. split; [done|]. split; [done|].
  unfold latestByDate in Hout. apply bind_Ok in Hout as (all & Hsort & [= <-]).
  apply sort_byM_Permutation in Hsort.
  assert (Hsub : (if limit =? 0 then all else slice0 limit all) `sublist_of` all).
  { destruct (limit =? 0); [done|apply slice0_sublist]. }
  split_and!.
  - intros row Hrow. apply elem_of_app, mergedRows_elem_of.
    rewrite <- Hsort. by apply (elem_of_sublist _ _ _ Hrow).
  - apply sublist_length in Hsub. apply Permutation_length in Hsort.
    pose proof (mergedRows_length (unanswered ++ answered)) as Hm.
    rewrite length_app in Hm. lia.
  - intros Hpos. destruct (Z.eqb_spec limit 0); [lia|].
    apply slice0_length. lia.
Qed.
End ReviewsMore.

Lemma fetchLatestReviews_rows_witness :
  exists take unanswered answered,
    1 <= take <= 500
    /\ fetchFeedbacks Sample.reviews "token" (Fin 7) false take 0 "dateDesc"
       = Ok unanswered
    /\ fetchFeedbacks Sample.reviews "token" (Fin 7) true take 0 "dateDesc"
       = Ok answered
    /\ (forall row, row ∈ [Sample.fb2; Sample.fb1'] ->
          row ∈ unanswered \/ row ∈ answered)
    /\ (length [Sample.fb2; Sample.fb1'] <= length unanswered + length answered)%nat
    /\ (0 < 5 -> Z.of_nat (length [Sample.fb2; Sample.fb1']) <= 5).
Proof.
  apply (fetchLatestReviews_rows RefHost.host Sample.reviews "token" (Fin 7) 5).
  vm_compute. reflexivity.
Defined.
